(** * The battery energy log of harbour-batterylog (qml/energylog.js)

    A shallow embedding of the persistent event log: the [energy_log] table,
    the five module-level "last sample" variables, the ingestion function
    [addOrUpdateEntry] with its helper [addEntry], and the three read
    queries [getLatestEntries], [getLatestEvents] and [getAveragePower].

    Conventions.
    - A JavaScript [Date] is the integer number of milliseconds since the
      epoch ([Z]); [new Date(Date.now())] is the explicit argument [now].
    - The column [energy] is declared BIGINT: stored energies are integers
      ([Z]).  A value computed with a division (an interpolated energy, the
      average power before [Math.round]) is the rational value ([Q]) of the
      binary64 number that JavaScript computes: see [round64].  The day
      count of [getStoredDayCount] alone is kept as an exact quotient.
    - [console.log] appends a line to the [console] component of the state.
    - [executeSql] either yields a result set or raises; a raising statement
      makes [transaction] roll back and re-raise. *)

From Stdlib Require Import ZArith QArith Qround List String Bool Lia Lqa.
From Stdlib Require Import SpecFloat.
From Stdlib Require Import Sorting.Sorted Sorting.Permutation.
Import ListNotations.

Local Open Scope string_scope.
Local Open Scope list_scope.
Local Open Scope Z_scope.

Module EnergyLog.

(** ** The table *)

(** One row of [energy_log(time DATE PRIMARY KEY, energy BIGINT,
    charging SMALLINT, active SMALLINT, event TEXT)]. *)
Record Row : Type := mkRow
  { time : Z
  ; energy : Z
  ; charging : bool
  ; active : bool
  ; event : string }.

(** Rows in insertion (rowid) order. *)
Definition Table : Type := list Row.

Definition times (tb : Table) : list Z := map time tb.

Definition hasTime (t : Z) (tb : Table) : bool :=
  existsb (fun r => time r =? t) tb.

Definition setTime (t : Z) (r : Row) : Row :=
  mkRow t (energy r) (charging r) (active r) (event r).

(** ** The SQL engine behind [tx.executeSql]

    A data-changing statement either completes, giving the new table and
    [rowsAffected], or raises.  The two statements that [energylog.js] uses
    to write are the fields of an engine, so that the JavaScript can be
    studied against any storage behaviour, including one that reports zero
    affected rows for an INSERT. *)

Inductive SqlResult : Type :=
| Done (tb : Table) (rowsAffected : nat)
| SqlError.

Record Engine : Type := mkEngine
  { (* INSERT INTO energy_log VALUES (?,?,?,?,?); *)
    execInsert : Table -> Row -> SqlResult
  ; (* UPDATE energy_log SET time = ? WHERE time = ?;  [newTime, oldTime] *)
    execUpdateTime : Table -> Z -> Z -> SqlResult }.

(** SQLite with the declared schema: [time] is the primary key, so a
    statement that would leave two rows with one [time] raises. *)
Definition sqliteInsert (tb : Table) (r : Row) : SqlResult :=
  if hasTime (time r) tb then SqlError else Done (tb ++ [r]) 1.

(** The rows whose [time] is [old] get the time [new]; all others stay. *)
Definition retime (new old : Z) (tb : Table) : Table :=
  map (fun r => if time r =? old then setTime new r else r) tb.

Definition sqliteUpdateTime (tb : Table) (newTime oldTime : Z) : SqlResult :=
  let hit := filter (fun r => time r =? oldTime) tb in
  let rest := filter (fun r => negb (time r =? oldTime)) tb in
  match hit with
  | [] => Done tb 0
  | [_] =>
      if hasTime newTime rest then SqlError
      else Done (retime newTime oldTime tb) 1
  | _ :: _ :: _ => SqlError
  end.

Definition sqlite : Engine := mkEngine sqliteInsert sqliteUpdateTime.

(** DELETE FROM energy_log WHERE time < ?; *)
Definition sqlDeleteBefore (tb : Table) (t : Z) : Table :=
  filter (fun r => negb (time r <? t)) tb.

(** ORDER BY time ASC: a stable insertion sort on the key [time]. *)
Fixpoint insertByTime (r : Row) (l : Table) : Table :=
  match l with
  | [] => [r]
  | x :: l' => if time r <? time x then r :: l else x :: insertByTime r l'
  end.

Fixpoint orderByTimeAsc (l : Table) : Table :=
  match l with
  | [] => []
  | x :: l' => insertByTime x (orderByTimeAsc l')
  end.

(** ORDER BY time DESC. *)
Definition orderByTimeDesc (l : Table) : Table := rev (orderByTimeAsc l).

(** LIMIT n. *)
Definition limit (n : nat) (l : Table) : Table := firstn n l.

(** ** Program state and the effect monad *)

(** The module-level variables [lastTime], [lastEnergy], [lastCharging],
    [lastActive], [lastEvent] are all [undefined] until the first entry has
    been added and are all defined from then on: [lastSample] is [None] in
    the first case and holds the five values in the second. *)
Record State : Type := mkState
  { table : Table
  ; lastSample : option Row
  ; timeoutIntervalInSeconds : Z
  ; console : list string }.

Definition withTable (st : State) (tb : Table) : State :=
  mkState tb (lastSample st) (timeoutIntervalInSeconds st) (console st).

Definition withLast (st : State) (l : option Row) : State :=
  mkState (table st) l (timeoutIntervalInSeconds st) (console st).

Definition withConsole (st : State) (c : list string) : State :=
  mkState (table st) (lastSample st) (timeoutIntervalInSeconds st) c.

(** A call either returns a value or raises; the state survives both. *)
Inductive Outcome (A : Type) : Type :=
| Return (a : A) (st : State)
| Thrown (st : State).
Arguments Return {A} a st.
Arguments Thrown {A} st.

Definition M (A : Type) : Type := State -> Outcome A.

Definition ret {A : Type} (a : A) : M A := fun st => Return a st.

Definition bind {A B : Type} (m : M A) (k : A -> M B) : M B :=
  fun st => match m st with
            | Return a st' => k a st'
            | Thrown st' => Thrown st'
            end.

Notation "x <- m ;; k" := (bind m (fun x => k))
  (at level 61, m at next level, right associativity).
Notation "m ;;; k" := (bind m (fun _ => k))
  (at level 61, right associativity).

Definition consoleLog (msg : string) : M unit :=
  fun st => Return tt (withConsole st (console st ++ [msg])).

Definition setLast (l : Row) : M unit :=
  fun st => Return tt (withLast st (Some l)).

Definition finalState {A : Type} (o : Outcome A) : State :=
  match o with Return _ st => st | Thrown st => st end.

(** What the callback handed to [transaction] did: it ran to its end (or to
    a [return]) with a new table, some console output and a return value, or
    a statement raised. *)
Inductive TxResult (A : Type) : Type :=
| Commit (tb : Table) (out : list string) (result : A)
| Rollback.
Arguments Commit {A} tb out result.
Arguments Rollback {A}.

(** [getDatabase().transaction(callback)]: commits what the callback did and
    returns nothing: the callback's own return value is dropped.  When a
    statement raises, the table is left as it was and the exception goes on
    to the caller. *)
Definition transaction {A : Type} (callback : Table -> TxResult A) : M unit :=
  fun st => match callback (table st) with
            | Commit tb out _ =>
                Return tt (withConsole (withTable st tb) (console st ++ out))
            | Rollback => Thrown st
            end.

(** ** Setup and retention *)

Definition msPerDay : Z := 86400000.

(** [d.setDate(d.getDate() - n)]: [n] calendar days back (days of 24 hours). *)
Definition daysBefore (now n : Z) : Z := now - n * msPerDay.

Definition init (newTimeoutIntervalInSeconds : Z) (st : State) : State :=
  mkState (table st) (lastSample st) newTimeoutIntervalInSeconds (console st).

Definition cleanup (maximumDays now : Z) (st : State) : State :=
  withTable st (sqlDeleteBefore (table st) (daysBefore now maximumDays)).

Definition reset (st : State) : State := withTable st [].

(** The state of a fresh installation once [init] has run. *)
Definition freshState (timeout : Z) : State := mkState [] None timeout [].

(** ** Ingestion *)

(** The value of [addOrUpdateEntry]: the number [0] or the [Date] of the
    new entry. *)
Inductive RetVal : Type :=
| RetZero
| RetTime (t : Z).

Definition addEntry (E : Engine) (time : Z) (energy : Z)
    (charging active : bool) (event : string) : M bool :=
  transaction (fun tb =>
    match execInsert E tb (mkRow time energy charging active event) with
    | SqlError => Rollback
    | Done tb' rowsAffected =>
        if Nat.eqb rowsAffected 0
        then Commit tb' [] (Some false)   (* return false; inside the callback *)
        else Commit tb' [] None
    end) ;;;
  ret true.

(** [lastEnergy === energy && lastCharging === charging &&
     lastActive === active && lastEvent === event] *)
Definition sameAsLast (l : Row) (energy : Z) (charging active : bool)
    (event : string) : bool :=
  (energy =? EnergyLog.energy l) && Bool.eqb (EnergyLog.charging l) charging
  && Bool.eqb (EnergyLog.active l) active && (EnergyLog.event l =? event)%string.

(** [elapsedSeconds > timeoutIntervalInSeconds] with
    [elapsedSeconds = (currentTime - lastTime) / 1000]: for an integer
    number of seconds this is [currentTime - lastTime > 1000 * timeout]. *)
Definition timedOut (timeout currentTime lastTime : Z) : bool :=
  1000 * timeout <? currentTime - lastTime.

(** Lines 89-102: create the new entry, then store the values. *)
Definition createNewEntry (E : Engine) (currentTime : Z) (energy : Z)
    (charging active : bool) (event : string) : M RetVal :=
  ok <- addEntry E currentTime energy charging active event ;;
  if negb ok then
    consoleLog "Failed to add new energy_log entry." ;;;
    ret RetZero
  else
    setLast (mkRow currentTime energy charging active event) ;;;
    ret (RetTime currentTime).

Definition addOrUpdateEntry (E : Engine) (energy : Z) (charging active : bool)
    (event : string) (now : Z) : M RetVal :=
  fun st =>
  let currentTime := now in
  match lastSample st with
  | None =>
      (* lastTime is undefined: elapsedSeconds is NaN and the comparison is
         false; undefined === energy is false as well *)
      createNewEntry E currentTime energy charging active event st
  | Some l =>
      if active && negb (event =? "Start")%string
         && timedOut (timeoutIntervalInSeconds st) currentTime (time l)
      then
        (let missedTime := time l + 1000 * timeoutIntervalInSeconds st in
         ok <- addEntry E missedTime (EnergyLog.energy l) (EnergyLog.charging l) false "" ;;
         if negb ok then
           consoleLog "Failed to add missing energy_log entry." ;;;
           ret RetZero
         else
           createNewEntry E currentTime energy charging active event) st
      else if sameAsLast l energy charging active event then
        (transaction (fun tb =>
           match execUpdateTime E tb currentTime (time l) with
           | SqlError => Rollback
           | Done tb' rowsAffected =>
               if Nat.eqb rowsAffected 0
               then Commit tb' ["Failed to update previous energy_log entry."] (Some 0)
               else Commit tb' [] None
           end) ;;;
         setLast (setTime currentTime l) ;;;
         ret RetZero) st
      else
        createNewEntry E currentTime energy charging active event st
  end.

(** ** JavaScript numbers

    A JavaScript number is an IEEE 754 binary64 value.  The integers that
    the log handles (energies, times in milliseconds, their sums and
    differences) are such values and are computed exactly; the model keeps
    them in [Z].  A division rounds, and so does the arithmetic on its
    result: a finite number is kept as the rational it is, and an
    operation is the exact operation followed by [round64], the rounding to
    the nearest binary64 value, ties to the even significand, with the
    gradual underflow of the format.  A result of magnitude 2^1024 or more,
    [Infinity] in JavaScript, is beyond what energies and times of the log
    produce and stays finite here. *)

(** The [k] with [2^k <= n/d < 2^(k+1)]. *)
Definition floorLog2 (n d : positive) : Z :=
  let k0 := Z.log2 (Z.pos n) - Z.log2 (Z.pos d) in
  if (if 0 <=? k0 then Z.pos d * 2 ^ k0 <=? Z.pos n
      else Z.pos d <=? Z.pos n * 2 ^ (- k0))
  then k0 else k0 - 1.

(** The integer nearest to [num/den], the even one of two that are equally
    near. *)
Definition roundHalfEven (num den : Z) : Z :=
  let q := num / den in
  match 2 * (num mod den) ?= den with
  | Lt => q
  | Gt => q + 1
  | Eq => if Z.even q then q else q + 1
  end.

(** [n/d] to 53 significant bits, and to a multiple of 2^-1074 when it is
    subnormal. *)
Definition roundPos (n d : positive) : Q :=
  let e := Z.max (floorLog2 n d - 52) (-1074) in
  if 0 <=? e
  then inject_Z (roundHalfEven (Z.pos n) (Z.pos d * 2 ^ e) * 2 ^ e)
  else roundHalfEven (Z.pos n * 2 ^ (- e)) (Z.pos d) # Z.to_pos (2 ^ (- e)).

Definition round64 (q : Q) : Q :=
  match Qnum q with
  | 0 => 0%Q
  | Z.pos n => roundPos n (Qden q)
  | Z.neg n => (- roundPos n (Qden q))%Q
  end.

(** [a + b], [a - b], [a * b] and [a / b] on numbers. *)
Definition fadd (a b : Q) : Q := round64 (a + b).
Definition fsub (a b : Q) : Q := round64 (a - b).
Definition fmul (a b : Q) : Q := round64 (a * b).
Definition fdiv (a b : Q) : Q := round64 (a / b).

(** The same operations in the Standard Library's specification of IEEE
    754 arithmetic, at the parameters of binary64, to compare with. *)
Definition sfOfZ (z : Z) : spec_float := binary_normalize 53 1024 z 0 false.

Definition sfValue (x : spec_float) : Q :=
  match x with
  | S754_finite s m e =>
      let v := if 0 <=? e then inject_Z (Z.pos m * 2 ^ e)
               else Z.pos m # Z.to_pos (2 ^ (- e)) in
      if s then (- v)%Q else v
  | _ => 0%Q
  end.

(** A number, given by its rational value, in the Standard Library's
    format: its value is an odd multiple of a power of two, or 0. *)
Definition sfOfNumber (q : Q) : spec_float :=
  let r := Qred q in
  binary_normalize 53 1024 (Qnum r) (- Z.log2 (Z.pos (Qden r))) false.

(** Pairs of integers to divide, and the interpolations and power
    quotients to compare on: (edge energy, other energy, border, edge time,
    other time) and (sum, duration). *)
Definition divisionSamples : list (Z * Z) :=
  [ (1, 3); (1, 5); (2, 3); (1, 10); (-7, 3); (7, -3); (4352, 1000)
  ; (123456789, 1000); (86400000, 259200000); (172800000, 259200000)
  ; (9007199254740992, 7); (1, 9007199254740991); (0, 5) ].

Definition blendSamples : list (Z * Z * Z * Z * Z) :=
  [ (1, 25, 1, 0, 3); (3, 3, 1, 0, 5); (60, 30, 2, 0, 3); (80, 100, -1, 0, -2)
  ; (100, 0, 25, 0, 100); (7, 1000003, 86399999, 0, 86400000) ].

Definition powerSamples : list (Z * Z) :=
  [ (17, 4352); (15, 4500000); (30, 7200000); (1, 3); (123456789, 9876543) ].

(** ** Reading

    How a stored [time] comes back into JavaScript depends on the platform:
    [new Date(item.time)] re-reads the stored column, and every reader then
    adds [getTimezoneOffset()] minutes to it.  [dateOfColumn t] is the
    [Date] that [new Date(item.time)] builds for a row whose [time] was
    written from the [Date] [t].  A [Date] bound to a [?] of a statement is
    compared with the [time] column in the order of time. *)
Record Platform : Type := mkPlatform
  { timezoneOffset : Z          (* currentTime.getTimezoneOffset(), minutes *)
  ; dateOfColumn : Z -> Z }.

(** The readers recover the instant that was written. *)
Definition RoundTrip (P : Platform) : Prop :=
  forall t, dateOfColumn P t + timezoneOffset P * 60000 = t.

(** A device on UTC whose storage hands back what was written. *)
Definition utc : Platform := mkPlatform 0 (fun t => t).

(** A device one hour east of UTC whose storage hands back local time. *)
Definition cet : Platform := mkPlatform (-60) (fun t => t + 3600000).

(** The JavaScript array [[time, energy, charging, active, event]]. *)
Record Entry : Type := mkEntry
  { etime : Z
  ; eenergy : Q
  ; echarging : bool
  ; eactive : bool
  ; eevent : string }.

(** The JavaScript array [[time, energy, charging, event]]. *)
Record EventEntry : Type := mkEventEntry
  { vtime : Z
  ; venergy : Z
  ; vcharging : bool
  ; vevent : string }.

Section Readers.

Variable P : Platform.

(** [time.setMinutes(time.getMinutes() + currentTime.getTimezoneOffset())] *)
Definition adjusted (item : Row) : Z :=
  dateOfColumn P (time item) + timezoneOffset P * 60000.

Definition convertItemToEntry (item : Row) : Entry :=
  mkEntry (adjusted item) (inject_Z (energy item)) (charging item)
          (active item) (event item).

(** [s = (endTime - endEntryTime) / (entry[0] - endEntryTime)] and
    [endEnergy * (1 - s) + entry[1] * s], each operation on numbers; where
    JavaScript would divide by zero, [Q] gives [s = 0]: the theorems below
    on interpolated energies all have a denominator that is not zero. *)
Definition blend (edgeEnergy otherEnergy : Q) (border edgeTime otherTime : Z) : Q :=
  let s := fdiv (inject_Z (border - edgeTime)) (inject_Z (otherTime - edgeTime)) in
  fadd (fmul edgeEnergy (fsub 1 s)) (fmul otherEnergy s).

(** SELECT ... WHERE time > ? AND time < ? ORDER BY time ASC; *)
Definition selectBetween (tb : Table) (startTime endTime : Z) : Table :=
  orderByTimeAsc (filter (fun r => (startTime <? time r) && (time r <? endTime)) tb).

(** SELECT ... WHERE time > ? ORDER BY time ASC LIMIT 1; *)
Definition selectNextAfter (tb : Table) (t : Z) : Table :=
  limit 1 (orderByTimeAsc (filter (fun r => t <? time r) tb)).

(** SELECT ... WHERE time < ? ORDER BY time DESC LIMIT 1; *)
Definition selectLastBefore (tb : Table) (t : Z) : Table :=
  limit 1 (orderByTimeDesc (filter (fun r => time r <? t) tb)).

(** Lines 144-163: the entry after the end of the window. *)
Definition addAfterEnd (tb : Table) (endTime : Z) (entries : list Entry)
    (endEntry : Entry) : list Entry :=
  let endEntryTime := etime endEntry in
  let endEnergy := eenergy endEntry in
  let endEvent := eevent endEntry in
  if negb (endEvent =? "Stop")%string then
    match selectNextAfter tb endEntryTime with
    | [item] =>
        let entry := convertItemToEntry item in
        entries ++ [mkEntry endTime
                      (blend endEnergy (eenergy entry) endTime endEntryTime (etime entry))
                      (echarging entry) (eactive entry) (eevent entry)]
    | _ => entries
    end
  else entries.

(** [startEntry !== "Start"]: [startEntry] is the array [entries[0]], and
    an array is never strictly equal to a string. *)
Definition entryIsNotString (startEntry : Entry) (s : string) : bool := true.

(** Lines 165-184: the entry before the start of the window. *)
Definition addBeforeStart (tb : Table) (startTime : Z) (entries : list Entry)
    (startEntry : Entry) : list Entry :=
  let startEntryTime := etime startEntry in
  let startEnergy := eenergy startEntry in
  let startEvent := eevent startEntry in
  if entryIsNotString startEntry "Start" then
    match selectLastBefore tb startEntryTime with
    | [item] =>
        let entry := convertItemToEntry item in
        mkEntry startTime
          (blend startEnergy (eenergy entry) startTime startEntryTime (etime entry))
          (echarging entry) (eactive entry) (eevent entry) :: entries
    | _ => entries
    end
  else entries.

Definition getLatestEntries (tb : Table) (dayCount dayOffset now : Z) : list Entry :=
  let startTime := daysBefore now (dayCount + dayOffset) in
  let endTime := daysBefore now dayOffset in
  let entries := map convertItemToEntry (selectBetween tb startTime endTime) in
  match entries with
  | first :: _ :: _ =>                       (* entries.length > 1 *)
      let entries1 := addAfterEnd tb endTime entries (last entries first) in
      (* entries[0] is read after the push, which leaves it in place *)
      addBeforeStart tb startTime entries1 first
  | _ => entries
  end.

(** SELECT time,energy,charging,event FROM energy_log WHERE time > ?
    AND event != '' AND event != 'Stop' ORDER BY time ASC LIMIT 400; *)
Definition selectEvents (tb : Table) (startTime : Z) : Table :=
  limit 400 (orderByTimeAsc
    (filter (fun r => (startTime <? time r) && negb (event r =? "")%string
                      && negb (event r =? "Stop")%string) tb)).

(** The loop of lines 215-227; [lastEvent] is the local variable of
    [getLatestEvents], [None] while it is undefined. *)
Fixpoint collectEvents (rows : Table) (lastEvent : option string) : list EventEntry :=
  match rows with
  | [] => []
  | item :: rest =>
      let event := EnergyLog.event item in
      let differs := match lastEvent with
                     | None => true
                     | Some e => negb (event =? e)%string
                     end in
      if differs
      then mkEventEntry (adjusted item) (energy item) (charging item) event
             :: collectEvents rest (Some event)
      else collectEvents rest lastEvent
  end.

Definition getLatestEvents (tb : Table) (dayCount now : Z) : list EventEntry :=
  let startTime := daysBefore now dayCount in
  collectEvents (selectEvents tb startTime) None.

(** SELECT time,energy,event FROM energy_log WHERE time > ? and charging = ?
    ORDER BY time ASC LIMIT 1000;  with [startTime, false] *)
Definition selectDischarging (tb : Table) (startTime : Z) : Table :=
  limit 1000 (orderByTimeAsc
    (filter (fun r => (startTime <? time r) && Bool.eqb (charging r) false) tb)).

(** The variables of the loop of lines 247-263. *)
Record PowerAcc : Type := mkPowerAcc
  { sum : Z
  ; duration : Z                (* milliseconds *)
  ; previousEnergy : Z
  ; previousTime : Z
  ; previousEvent : string }.

Definition powerStep (acc : PowerAcc) (item : Row) : PowerAcc :=
  let time := dateOfColumn P (EnergyLog.time item) in
  let energy := EnergyLog.energy item in
  let event := EnergyLog.event item in
  if (energy <=? previousEnergy acc) && negb (previousEvent acc =? "Stop")%string
  then mkPowerAcc (sum acc + (previousEnergy acc - energy))
                  (duration acc + (time - previousTime acc)) energy time event
  else mkPowerAcc (sum acc) (duration acc) energy time event.

(** A JavaScript number that is an integer or [Infinity]. *)
Inductive Power : Type :=
| Finite (p : Z)
| Infinity.

(** [Math.round(x)]: the nearest integer, halves towards plus infinity. *)
Definition mathRound (x : Q) : Z := Qfloor (x + (1 # 2))%Q.

(** [Math.round((sum * 3600) / (duration / 1000))] for [sum > 0]. *)
Definition roundedPower (sum duration : Z) : Power :=
  if duration =? 0 then Infinity
  else Finite (mathRound (fdiv (fmul (inject_Z sum) 3600)
                               (fdiv (inject_Z duration) 1000))).

Definition getAveragePower (tb : Table) (dayCount now : Z) : Power :=
  let startTime := daysBefore now dayCount in
  match selectDischarging tb startTime with
  | item0 :: (_ :: _) as rest =>             (* result.rows.length > 1 *)
      let acc := fold_left powerStep rest
                   (mkPowerAcc 0 0 (energy item0) (dateOfColumn P (time item0))
                               (event item0)) in
      if 0 <? sum acc then roundedPower (sum acc) (duration acc) else Finite 0
  | _ => Finite 0
  end.

End Readers.

(** ** Runs of the writer *)

(** One call [addOrUpdateEntry(energy, charging, active, event)] made at
    the instant [cnow]. *)
Record Call : Type := mkCall
  { cenergy : Z
  ; ccharging : bool
  ; cactive : bool
  ; cevent : string
  ; cnow : Z }.

Definition step (E : Engine) (st : State) (c : Call) : State :=
  finalState (addOrUpdateEntry E (cenergy c) (ccharging c) (cactive c)
                               (cevent c) (cnow c) st).

(** The caller goes on with the next sample whatever the call did. *)
Definition run (E : Engine) (st : State) (calls : list Call) : State :=
  fold_left (step E) calls st.

(** ** Reference notions used by the statements *)

(** A stored row as an entry: what a reader returns for it when the
    platform recovers the instant that was written. *)
Definition rowEntry (r : Row) : Entry :=
  mkEntry (time r) (inject_Z (energy r)) (charging r) (active r) (event r).

Definition days (n : Z) : Z := n * msPerDay.

(** Two rows, at day 0 with energy 100 and at day 100 with energy 0. *)
Definition twoRowTable : Table :=
  [ mkRow (days 0) 100 false false ""; mkRow (days 100) 0 false false "" ].

(** A row before the window [(day 5, day 10)] and two rows inside it, the
    first of which carries the event "Start". *)
Definition startTable : Table :=
  [ mkRow (days 4) 100 false false ""
  ; mkRow (days 6) 80 false true "Start"
  ; mkRow (days 8) 60 false true "" ].

(** A stored row as an entry of the event timeline. *)
Definition eventEntry (r : Row) : EventEntry :=
  mkEventEntry (time r) (energy r) (charging r) (event r).

(** Consecutive rows of a sequence, as pairs (previous, current). *)
Definition consecutivePairs (rows : Table) : list (Row * Row) :=
  combine rows (tl rows).

(** Collapsing runs of one event label, in the words of the specification:
    a row is kept when it is the first one or when its label differs from
    the label of the row just before it. *)
Definition collapseRuns (rows : Table) : Table :=
  match rows with
  | [] => []
  | r :: _ =>
      r :: map snd (filter (fun pc => negb (event (fst pc) =? event (snd pc))%string)
                           (consecutivePairs rows))
  end.

(** No label is followed by itself. *)
Fixpoint noRepeatFrom (prev : option string) (labels : list string) : Prop :=
  match labels with
  | [] => True
  | x :: rest => prev <> Some x /\ noRepeatFrom (Some x) rest
  end.

(** The pairs that count for the average power, in the words of the
    specification: [cur.energy <= prev.energy] and [prev.event] is not
    "Stop". *)
Definition countedPair (pc : Row * Row) : bool :=
  (energy (snd pc) <=? energy (fst pc)) && negb (event (fst pc) =? "Stop")%string.

Definition sumZ (l : list Z) : Z := fold_right Z.add 0 l.

(** The average power in the words of the specification, over the rows
    that the query selected: [round(sum * 3600 / duration_in_seconds)] when
    [sum > 0], and 0 otherwise. *)
Definition specAveragePower (rows : Table) : Z :=
  let pairs := filter countedPair (consecutivePairs rows) in
  let sum := sumZ (map (fun pc => energy (fst pc) - energy (snd pc)) pairs) in
  let durationMs := sumZ (map (fun pc => time (snd pc) - time (fst pc)) pairs) in
  if 0 <? sum
  then mathRound (fdiv (fmul (inject_Z sum) 3600) (fdiv (inject_Z durationMs) 1000))
  else 0.

(** Four event rows with the labels Charging, Charging, Full, Charging. *)
Definition chargingTable (t1 t2 t3 t4 : Z) : Table :=
  [ mkRow t1 10 true true "Charging"
  ; mkRow t2 20 true true "Charging"
  ; mkRow t3 30 true true "Full"
  ; mkRow t4 25 true true "Charging" ].

(** Rows before, inside and after the window [(day 5, day 10)]. *)
Definition windowTable : Table :=
  [ mkRow (days 4) 100 false false ""
  ; mkRow (days 6) 80 false true ""
  ; mkRow (days 8) 60 false true ""
  ; mkRow (days 11) 30 true true "Charging" ].


(** Two rows whose power is a quotient just below a half: 17 * 3600 over
    4.352 seconds is 14062.5 exactly and 14062.499999999998 on numbers. *)
Definition roundingTable : Table :=
  [ mkRow 0 17 false true ""; mkRow 4352 0 false true "" ].

(** A discharge with a rise of the energy and a "Stop" in it. *)
Definition dischargeTable : Table :=
  [ mkRow 0 100 false true ""
  ; mkRow 3600000 90 false true ""
  ; mkRow 7200000 95 false true "Stop"
  ; mkRow 9000000 70 false true ""
  ; mkRow 9900000 65 false true "" ].

(** ** Notions used by the statements on the writer *)

(** The condition of line 63, for a defined [lastTime]. *)
Definition gapDetected (st : State) (l : Row) (a : bool) (ev : string) (now : Z) : bool :=
  a && negb (ev =? "Start")%string
  && timedOut (timeoutIntervalInSeconds st) now (time l).

(** An engine that stores nothing and reports zero affected rows. *)
Definition lossy : Engine :=
  mkEngine (fun tb _ => Done tb 0) (fun tb _ _ => Done tb 0).

(** The table was emptied by [reset] after a first sample at 1000. *)
Definition staleState : State :=
  reset (finalState (addOrUpdateEntry sqlite 50 false false "" 1000 (freshState 30))).

(** An engine keeps the key when a completed statement never leaves two
    rows with one [time]. *)
Definition KeepsKey (E : Engine) : Prop :=
  (forall tb r tb' n, NoDup (times tb) -> execInsert E tb r = Done tb' n ->
                      NoDup (times tb'))
  /\ (forall tb new old tb' n, NoDup (times tb) ->
        execUpdateTime E tb new old = Done tb' n -> NoDup (times tb')).

(** Strictly increasing instants. *)
Fixpoint increasingFrom (t : Z) (l : list Z) : bool :=
  match l with
  | [] => true
  | x :: l' => (t <? x) && increasingFrom x l'
  end.

Definition strictlyIncreasing (l : list Z) : bool :=
  match l with
  | [] => true
  | x :: l' => increasingFrom x l'
  end.

Definition sampleCalls : list Call :=
  [ mkCall 50 false true "Start" 1000
  ; mkCall 50 false true "Start" 2000
  ; mkCall 49 false true "" 3000
  ; mkCall 48 false true "" 100000 ].

(** The rows are in ascending order of [time] and none is later than the
    cached [lastTime]; with an undefined cache the table is empty. *)
Definition Ordered (st : State) : Prop :=
  StronglySorted Z.lt (times (table st))
  /\ match lastSample st with
     | Some l => Forall (fun t => t <= time l) (times (table st))
     | None => table st = []
     end.

(** Every call of the run returns. *)
Fixpoint allReturn (E : Engine) (st : State) (calls : list Call) : Prop :=
  match calls with
  | [] => True
  | c :: calls' =>
      exists v st',
        addOrUpdateEntry E (cenergy c) (ccharging c) (cactive c) (cevent c)
          (cnow c) st = Return v st'
        /\ allReturn E st' calls'
  end.

Definition timeLe (a b : Row) : Prop := time a <= time b.

(** ** The two counters of the store and the event page *)

(** [getStoredDayCount()]: SELECT time FROM energy_log ORDER BY time ASC
    LIMIT 1; the days from the first stored time to [now], 0 without a
    row.  The three divisions of line 286 round; the quotient is kept exact
    here, and only its order and its sign are used below. *)
Definition getStoredDayCount (P : Platform) (tb : Table) (now : Z) : Q :=
  let currentTime := now in
  match limit 1 (orderByTimeAsc tb) with
  | [item] =>
      let firstTime := dateOfColumn P (time item) + timezoneOffset P * 60000 in
      (inject_Z (currentTime - firstTime) / 1000 / 3600 / 24)%Q
  | _ => 0%Q
  end.

(** [getStoredEventCount()]: SELECT COUNT( * ) AS count FROM energy_log; the
    result set has the one row that holds the count. *)
Definition getStoredEventCount (tb : Table) : nat :=
  match [List.length tb] with
  | [count] => count
  | _ => 0%nat
  end.

(** An element of [itemModel] in pages/EventPage.qml. *)
Record Item : Type := mkItem
  { itemTime : Z
  ; itemEnergy : Z
  ; itemCharging : bool
  ; itemEvent : string }.

(** [addItem(time, energy, charging, event)] of the event page; the scroll
    timer it starts has no part in the model. *)
Definition addItem (itemModel : list Item) (time energy : Z) (charging : bool)
    (event : string) : list Item :=
  if negb (event =? "")%string
  then itemModel ++ [mkItem time energy charging event]
  else itemModel.

(** The loop of [init()] of the event page over the list of events that
    [logs.getLatestEnergyEvents(10)] handed over. *)
Definition pageInit (events : list EventEntry) (itemModel : list Item) : list Item :=
  fold_left (fun model e => addItem model (vtime e) (venergy e) (vcharging e) (vevent e))
            events itemModel.

(** ** Notions used by the statements on the whole store *)

(** What the application does to the store: a sample, a [cleanup] or a
    [reset]. *)
Inductive Op : Type :=
| OpAdd (c : Call)
| OpCleanup (maximumDays now : Z)
| OpReset.

Definition applyOp (E : Engine) (st : State) (op : Op) : State :=
  match op with
  | OpAdd c => step E st c
  | OpCleanup maximumDays now => cleanup maximumDays now st
  | OpReset => reset st
  end.

Definition runOps (E : Engine) (st : State) (ops : list Op) : State :=
  fold_left (applyOp E) ops st.

(** The instants of the samples among the operations. *)
Fixpoint addInstants (ops : list Op) : list Z :=
  match ops with
  | [] => []
  | OpAdd c :: ops' => cnow c :: addInstants ops'
  | _ :: ops' => addInstants ops'
  end.

(** No sample among the operations raises. *)
Fixpoint opsReturn (E : Engine) (st : State) (ops : list Op) : Prop :=
  match ops with
  | [] => True
  | OpAdd c :: ops' =>
      exists v st',
        addOrUpdateEntry E (cenergy c) (ccharging c) (cactive c) (cevent c)
          (cnow c) st = Return v st'
        /\ opsReturn E st' ops'
  | op :: ops' => opsReturn E (applyOp E st op) ops'
  end.

(** The three ways of a call: the gap case, the merge case, the plain
    insert. *)
Inductive Way : Type := GapWay (l : Row) | MergeWay (l : Row) | PlainWay.

Definition wayOf (st : State) (e : Z) (c a : bool) (ev : string) (now : Z) : Way :=
  match lastSample st with
  | None => PlainWay
  | Some l =>
      if gapDetected st l a ev now then GapWay l
      else if sameAsLast l e c a ev then MergeWay l
      else PlainWay
  end.

(** The row that the gap case adds for the missed standby. *)
Definition missedRow (st : State) (l : Row) : Row :=
  mkRow (time l + 1000 * timeoutIntervalInSeconds st) (energy l) (charging l) false "".

(** What a row holds besides its time. *)
Definition payload (r : Row) : Z * bool * bool * string :=
  (energy r, charging r, active r, event r).

(** [a] is the beginning of [b]. *)
Definition prefixOf {A : Type} (a b : list A) : Prop := exists c, b = a ++ c.

(** The samples of one tuple at the given instants. *)
Definition repeatedCalls (l : Row) (instants : list Z) : list Call :=
  map (fun t => mkCall (energy l) (charging l) (active l) (event l) t) instants.

Definition sampleOps : list Op :=
  [ OpAdd (mkCall 50 false true "Start" 1000)
  ; OpAdd (mkCall 49 false true "" 3000)
  ; OpCleanup 1 (days 2)
  ; OpAdd (mkCall 48 false true "" 100000)
  ; OpReset
  ; OpAdd (mkCall 48 false true "" 101000) ].

(** The cache holds the last row of the table; with an undefined cache the
    table is empty. *)
Definition Mirrored (st : State) : Prop :=
  match lastSample st with
  | Some l => exists before, table st = before ++ [l]
  | None => table st = []
  end.

(** The entry that [getLatestEntries] puts at a border of the window:
    the energy of [edge], the row of the window next to the border,
    blended with the energy of [other], the row beyond it. *)
Definition borderEntry (border : Z) (edge other : Row) : Entry :=
  mkEntry border
    (blend (inject_Z (energy edge)) (inject_Z (energy other))
           border (time edge) (time other))
    (charging other) (active other) (event other).

(** An entry of the timeline as an element of [itemModel]. *)
Definition itemOf (e : EventEntry) : Item :=
  mkItem (vtime e) (venergy e) (vcharging e) (vevent e).

(** * Properties *)

(** ** The arithmetic of numbers *)

(** On the samples, division on numbers is the division of the Standard
    Library's IEEE 754 specification at the parameters of binary64. *)
Lemma fdiv_agrees_with_SpecFloat :
  forallb (fun ab =>
             Qeq_bool (fdiv (inject_Z (fst ab)) (inject_Z (snd ab)))
                      (sfValue (SFdiv 53 1024 (sfOfZ (fst ab)) (sfOfZ (snd ab)))))
          (filter (fun ab => negb (snd ab =? 0)) divisionSamples)
  = true.
Proof. vm_compute. reflexivity. Qed.

(** On the samples, the interpolation is the same sequence of operations
    of that specification. *)
Lemma blend_agrees_with_SpecFloat :
  forallb (fun x =>
             match x with
             | (e1, e2, border, edgeTime, otherTime) =>
                 let s := SFdiv 53 1024 (sfOfZ (border - edgeTime))
                                        (sfOfZ (otherTime - edgeTime)) in
                 Qeq_bool
                   (blend (inject_Z e1) (inject_Z e2) border edgeTime otherTime)
                   (sfValue
                      (SFadd 53 1024
                         (SFmul 53 1024 (sfOfZ e1) (SFsub 53 1024 (sfOfZ 1) s))
                         (SFmul 53 1024 (sfOfZ e2) s)))
             end)
          blendSamples
  = true.
Proof. vm_compute. reflexivity. Qed.

(** On the samples, so is the quotient of the average power; the first
    sample is a quotient of 14062.5 that comes out below it. *)
Lemma power_quotient_agrees_with_SpecFloat :
  forallb (fun sd =>
             Qeq_bool
               (fdiv (fmul (inject_Z (fst sd)) 3600) (fdiv (inject_Z (snd sd)) 1000))
               (sfValue
                  (SFdiv 53 1024
                     (SFmul 53 1024 (sfOfZ (fst sd)) (sfOfZ 3600))
                     (SFdiv 53 1024 (sfOfZ (snd sd)) (sfOfZ 1000)))))
          powerSamples
  = true
  /\ roundedPower 17 4352 = Finite 14062.
Proof. split; vm_compute; reflexivity. Qed.

(** Rounding leaves a number as it is: integers up to 2^53, halves and
    the results of the operations are numbers. *)
Lemma round64_fixes_numbers :
  forallb (fun q => Qeq_bool (round64 q) q)
          [ 0%Q; 1%Q; (-1)%Q; 3600%Q; inject_Z (2 ^ 53); inject_Z (- 2 ^ 53)
          ; (1 # 2)%Q; (3 # 4)%Q; fdiv 1 3; fdiv 4352 1000
          ; sfValue (sfOfNumber (fdiv 1 3)) ]
  = true.
Proof. vm_compute. reflexivity. Qed.

(** ** The engine *)

Lemma hasTime_true_iff (t : Z) (tb : Table) :
  hasTime t tb = true <-> In t (times tb).
Proof.
  unfold hasTime, times. rewrite existsb_exists, in_map_iff. split.
  - intros [r [Hin Heq]]. apply Z.eqb_eq in Heq. now exists r.
  - intros [r [Heq Hin]]. exists r. split; [assumption|]. now apply Z.eqb_eq.
Qed.

Lemma hasTime_false_iff (t : Z) (tb : Table) :
  hasTime t tb = false <-> ~ In t (times tb).
Proof.
  rewrite <- hasTime_true_iff. destruct (hasTime t tb); split; congruence.
Qed.

Lemma times_app (a b : Table) : times (a ++ b) = times a ++ times b.
Proof. apply map_app. Qed.

Lemma sqliteInsert_fresh (tb : Table) (r : Row) :
  ~ In (time r) (times tb) -> sqliteInsert tb r = Done (tb ++ [r]) 1.
Proof.
  intro H. unfold sqliteInsert. apply hasTime_false_iff in H. now rewrite H.
Qed.

Lemma retime_length (new old : Z) (tb : Table) :
  List.length (retime new old tb) = List.length tb.
Proof. apply length_map. Qed.

Lemma retime_absent (new old : Z) (tb : Table) :
  ~ In old (times tb) -> retime new old tb = tb.
Proof.
  induction tb as [|x tb IH]; simpl; intro H; [reflexivity|].
  destruct (Z.eqb_spec (time x) old) as [E|E].
  - exfalso. apply H. now left.
  - f_equal. apply IH. intro Hin. apply H. now right.
Qed.

Lemma filter_time_absent (old : Z) (tb : Table) :
  ~ In old (times tb) -> filter (fun r => time r =? old) tb = [].
Proof.
  induction tb as [|x tb IH]; simpl; intro H; [reflexivity|].
  destruct (Z.eqb_spec (time x) old) as [E|E].
  - exfalso. apply H. now left.
  - apply IH. intro Hin. apply H. now right.
Qed.

Lemma filter_time_unique (old : Z) (tb : Table) :
  NoDup (times tb) -> In old (times tb) ->
  exists r, filter (fun r => time r =? old) tb = [r] /\ In r tb /\ time r = old.
Proof.
  induction tb as [|x tb IH]; simpl; intros Hnd Hin; [contradiction|].
  inversion Hnd as [|? ? Hx Hnd']; subst.
  destruct (Z.eqb_spec (time x) old) as [E|E].
  - exists x. subst old. rewrite (filter_time_absent _ _ Hx). auto.
  - destruct Hin as [Hin|Hin]; [contradiction|].
    destruct (IH Hnd' Hin) as [r [Hf [Hr Ht]]]. exists r. auto.
Qed.

Lemma hasTime_rest_false (new old : Z) (tb : Table) :
  (forall r, In r tb -> time r <> old -> time r <> new) ->
  hasTime new (filter (fun r => negb (time r =? old)) tb) = false.
Proof.
  intro H. apply hasTime_false_iff. unfold times. rewrite in_map_iff.
  intros [r [Ht Hin]]. apply filter_In in Hin. destruct Hin as [Hin Hne].
  apply negb_true_iff, Z.eqb_neq in Hne. exact (H r Hin Hne Ht).
Qed.

Lemma sqliteUpdateTime_hit (tb : Table) (new old : Z) :
  NoDup (times tb) -> In old (times tb) ->
  (forall r, In r tb -> time r <> old -> time r <> new) ->
  sqliteUpdateTime tb new old = Done (retime new old tb) 1.
Proof.
  intros Hnd Hin Hfree. unfold sqliteUpdateTime.
  destruct (filter_time_unique old tb Hnd Hin) as [r [Hf _]]. rewrite Hf.
  now rewrite (hasTime_rest_false new old tb Hfree).
Qed.

Lemma sqliteUpdateTime_miss (tb : Table) (new old : Z) :
  ~ In old (times tb) -> sqliteUpdateTime tb new old = Done tb 0.
Proof.
  intro H. unfold sqliteUpdateTime. now rewrite (filter_time_absent old tb H).
Qed.

(** ** [addEntry] and the three branches of [addOrUpdateEntry] *)

Lemma addEntry_cases (E : Engine) (t e : Z) (c a : bool) (ev : string) (st : State) :
  (execInsert E (table st) (mkRow t e c a ev) = SqlError
   /\ addEntry E t e c a ev st = Thrown st)
  \/ (exists tb n, execInsert E (table st) (mkRow t e c a ev) = Done tb n
      /\ addEntry E t e c a ev st
         = Return true (mkState tb (lastSample st) (timeoutIntervalInSeconds st)
                                (console st))).
Proof.
  unfold addEntry, bind, transaction, ret.
  destruct (execInsert E (table st) (mkRow t e c a ev)) as [tb n|] eqn:Hx.
  - right. exists tb, n. split; [reflexivity|].
    destruct (Nat.eqb n 0); unfold withConsole, withTable; simpl;
      now rewrite app_nil_r.
  - left. split; reflexivity.
Qed.

Lemma addEntry_sqlite_fresh (t e : Z) (c a : bool) (ev : string) (st : State) :
  ~ In t (times (table st)) ->
  addEntry sqlite t e c a ev st
  = Return true (mkState (table st ++ [mkRow t e c a ev]) (lastSample st)
                         (timeoutIntervalInSeconds st) (console st)).
Proof.
  intro H.
  destruct (addEntry_cases sqlite t e c a ev st) as [[Hx _]|[tb [n [Hx Hr]]]];
    simpl in Hx; rewrite sqliteInsert_fresh in Hx by exact H.
  - discriminate.
  - injection Hx as <- <-. exact Hr.
Qed.

Lemma createNewEntry_cases (E : Engine) (t e : Z) (c a : bool) (ev : string) (st : State) :
  (execInsert E (table st) (mkRow t e c a ev) = SqlError
   /\ createNewEntry E t e c a ev st = Thrown st)
  \/ (exists tb n, execInsert E (table st) (mkRow t e c a ev) = Done tb n
      /\ createNewEntry E t e c a ev st
         = Return (RetTime t)
             (mkState tb (Some (mkRow t e c a ev)) (timeoutIntervalInSeconds st)
                      (console st))).
Proof.
  destruct (addEntry_cases E t e c a ev st) as [[Hx H]|[tb [n [Hx H]]]].
  - left. split; [exact Hx|]. unfold createNewEntry, bind at 1. now rewrite H.
  - right. exists tb, n. split; [exact Hx|].
    unfold createNewEntry, bind at 1. now rewrite H.
Qed.

Lemma createNewEntry_sqlite_fresh (t e : Z) (c a : bool) (ev : string) (st : State) :
  ~ In t (times (table st)) ->
  createNewEntry sqlite t e c a ev st
  = Return (RetTime t)
      (mkState (table st ++ [mkRow t e c a ev]) (Some (mkRow t e c a ev))
               (timeoutIntervalInSeconds st) (console st)).
Proof.
  intro H. unfold createNewEntry, bind at 1.
  rewrite (addEntry_sqlite_fresh t e c a ev st H). reflexivity.
Qed.

Lemma sameAsLast_refl (l : Row) :
  sameAsLast l (energy l) (charging l) (active l) (event l) = true.
Proof.
  unfold sameAsLast. now rewrite Z.eqb_refl, !eqb_reflx, String.eqb_refl.
Qed.

Lemma sameAsLast_true (l : Row) e c a ev :
  sameAsLast l e c a ev = true ->
  e = energy l /\ c = charging l /\ a = active l /\ ev = event l.
Proof.
  unfold sameAsLast. rewrite !andb_true_iff.
  intros [[[He Hc] Ha] Hev].
  apply Z.eqb_eq in He. apply eqb_prop in Hc. apply eqb_prop in Ha.
  apply String.eqb_eq in Hev. auto.
Qed.

Lemma merge_branch (st : State) (l : Row) (now : Z) :
  lastSample st = Some l ->
  gapDetected st l (active l) (event l) now = false ->
  NoDup (times (table st)) ->
  In (time l) (times (table st)) ->
  (forall r, In r (table st) -> time r <> time l -> time r <> now) ->
  addOrUpdateEntry sqlite (energy l) (charging l) (active l) (event l) now st
  = Return RetZero
      (mkState (retime now (time l) (table st)) (Some (setTime now l))
               (timeoutIntervalInSeconds st) (console st)).
Proof.
  intros Hl Hgap Hnd Hin Hfree. unfold addOrUpdateEntry. rewrite Hl.
  unfold gapDetected in Hgap. rewrite Hgap, sameAsLast_refl.
  unfold bind, transaction. simpl execUpdateTime.
  rewrite (sqliteUpdateTime_hit _ _ _ Hnd Hin Hfree). simpl.
  unfold withLast, withConsole, withTable. simpl. now rewrite app_nil_r.
Qed.

Lemma gap_branch (st : State) (l : Row) (e1 : Z) (c1 : bool) (ev : string) (now : Z) :
  lastSample st = Some l ->
  ev <> "Start" ->
  1000 * timeoutIntervalInSeconds st < now - time l ->
  ~ In (time l + 1000 * timeoutIntervalInSeconds st) (times (table st)) ->
  ~ In now (times (table st)) ->
  addOrUpdateEntry sqlite e1 c1 true ev now st
  = Return (RetTime now)
      (mkState (table st ++ [mkRow (time l + 1000 * timeoutIntervalInSeconds st)
                                   (energy l) (charging l) false "";
                             mkRow now e1 c1 true ev])
               (Some (mkRow now e1 c1 true ev))
               (timeoutIntervalInSeconds st) (console st)).
Proof.
  intros Hl Hev Hgap Hmiss Hnow. unfold addOrUpdateEntry. rewrite Hl.
  apply String.eqb_neq in Hev. rewrite Hev. unfold timedOut.
  apply Z.ltb_lt in Hgap. rewrite Hgap. simpl andb. cbv iota.
  unfold bind at 1. rewrite (addEntry_sqlite_fresh _ _ _ _ _ st Hmiss).
  change (negb true) with false. cbv iota. rewrite createNewEntry_sqlite_fresh.
  - simpl. now rewrite <- app_assoc.
  - cbn [table]. rewrite times_app, in_app_iff. cbn [times map time In].
    apply Z.ltb_lt in Hgap. intros [H|[H|[]]]; [contradiction|lia].
Qed.

(** What a call can do, for any engine: raise, add the new entry, or take
    the merge case. *)
Lemma addOrUpdateEntry_cases (E : Engine) (e : Z) (c a : bool) (ev : string)
    (now : Z) (st : State) :
  (exists st', addOrUpdateEntry E e c a ev now st = Thrown st'
               /\ console st' = console st /\ lastSample st' = lastSample st)
  \/ (exists st', addOrUpdateEntry E e c a ev now st = Return (RetTime now) st'
                  /\ console st' = console st
                  /\ lastSample st' = Some (mkRow now e c a ev))
  \/ (exists l st' out,
        lastSample st = Some l
        /\ gapDetected st l a ev now = false
        /\ sameAsLast l e c a ev = true
        /\ addOrUpdateEntry E e c a ev now st = Return RetZero st'
        /\ console st' = console st ++ out
        /\ (out = [] \/ out = ["Failed to update previous energy_log entry."])
        /\ lastSample st' = Some (setTime now l)).
Proof.
  remember (addOrUpdateEntry E e c a ev now st) as o eqn:Ho.
  unfold addOrUpdateEntry in Ho.
  assert (Hnew : forall s,
    console s = console st ->
    (exists st', createNewEntry E now e c a ev s = Thrown st'
                 /\ console st' = console st /\ lastSample st' = lastSample s)
    \/ (exists st', createNewEntry E now e c a ev s = Return (RetTime now) st'
                    /\ console st' = console st
                    /\ lastSample st' = Some (mkRow now e c a ev))).
  { intros s Hs.
    destruct (createNewEntry_cases E now e c a ev s) as [[_ H]|[tb [n [_ H]]]].
    - left. exists s. auto.
    - right. eexists. split; [exact H|]. split; [exact Hs|reflexivity]. }
  destruct (lastSample st) as [l|] eqn:Hl.
  - fold (gapDetected st l a ev now) in Ho.
    destruct (gapDetected st l a ev now) eqn:Hgap.
    + unfold bind at 1 in Ho.
      destruct (addEntry_cases E (time l + 1000 * timeoutIntervalInSeconds st)
                  (energy l) (charging l) false "" st) as [[_ H]|[tb [n [_ H]]]];
        rewrite H in Ho.
      * left. exists st. subst o. auto.
      * change (negb true) with false in Ho. cbv iota in Ho. subst o.
        destruct (Hnew (mkState tb (lastSample st) (timeoutIntervalInSeconds st)
                                (console st)) eq_refl) as [[st' [H1 [H2 H3]]]|H'].
        -- left. exists st'. cbn in H3. rewrite <- Hl. auto.
        -- right. left. exact H'.
    + destruct (sameAsLast l e c a ev) eqn:Hsame.
      * unfold bind, transaction, setLast, ret in Ho.
        destruct (execUpdateTime E (table st) now (time l)) as [tb n|].
        -- right. right. destruct (Nat.eqb n 0); subst o.
           ++ exists l. eexists. eexists. repeat split; auto.
           ++ exists l. eexists. exists []. repeat split; auto.
        -- left. exists st. subst o. auto.
      * subst o. destruct (Hnew st eq_refl) as [[st' [H1 [H2 H3]]]|H'].
        -- left. exists st'. rewrite <- Hl. auto.
        -- right. left. exact H'.
  - subst o. destruct (Hnew st eq_refl) as [[st' [H1 [H2 H3]]]|H'].
    + left. exists st'. rewrite <- Hl. auto.
    + right. left. exact H'.
Qed.

(** ** Ingestion: merge, back-fill, failures *)

Lemma setTime_self (l : Row) :
  mkRow (time l) (energy l) (charging l) (active l) (event l) = l.
Proof. now destruct l. Qed.

Lemma retime_app_last (now : Z) (l : Row) (tb : Table) :
  ~ In (time l) (times tb) ->
  retime now (time l) (tb ++ [l]) = tb ++ [setTime now l].
Proof.
  intro H. unfold retime. rewrite map_app.
  fold (retime now (time l) tb). rewrite (retime_absent _ _ _ H).
  simpl. now rewrite Z.eqb_refl.
Qed.

Lemma NoDup_times_snoc (tb : Table) (r : Row) :
  NoDup (times tb) -> ~ In (time r) (times tb) -> NoDup (times (tb ++ [r])).
Proof.
  intros Hnd Hfresh. rewrite times_app. simpl.
  apply NoDup_incl_NoDup with (l := time r :: times tb).
  - now constructor.
  - rewrite length_app. simpl. lia.
  - intros x Hx. apply in_app_iff. simpl in *. tauto.
Qed.

(** C1. Merge idempotence.  The cache holds [l] and the call repeats the
    tuple of [l] at the instant [now] outside the gap case.  Then the call
    returns the number 0, the table keeps its length, the row whose time
    was [time l] now has the time [now] and every other row is as before,
    and the cache holds the same tuple at [now].  Moreover two calls with
    one tuple in succession, the first made with an undefined cache at the
    instant [time l], add exactly one row to the table, and its time is the
    [now] of the second call. *)
Theorem merge_idempotence (st : State) (l : Row) (now : Z)
    (Hlast : lastSample st = Some l)
    (Hnogap : gapDetected st l (active l) (event l) now = false)
    (Hkey : NoDup (times (table st)))
    (Hrow : In (time l) (times (table st)))
    (Hfree : forall r, In r (table st) -> time r <> time l -> time r <> now) :
  addOrUpdateEntry sqlite (energy l) (charging l) (active l) (event l) now st
  = Return RetZero
      (mkState (retime now (time l) (table st)) (Some (setTime now l))
               (timeoutIntervalInSeconds st) (console st))
  /\ List.length (retime now (time l) (table st)) = List.length (table st)
  /\ forall (tb0 : Table) (out0 : list string),
       NoDup (times tb0) -> ~ In (time l) (times tb0) -> ~ In now (times tb0) ->
       exists st1,
         addOrUpdateEntry sqlite (energy l) (charging l) (active l) (event l)
           (time l) (mkState tb0 None (timeoutIntervalInSeconds st) out0)
         = Return (RetTime (time l)) st1
         /\ addOrUpdateEntry sqlite (energy l) (charging l) (active l) (event l)
              now st1
            = Return RetZero
                (mkState (tb0 ++ [setTime now l]) (Some (setTime now l))
                         (timeoutIntervalInSeconds st) out0).
Proof.
  split; [now apply merge_branch|]. split; [apply retime_length|].
  intros tb0 out0 Hnd Hold Hnew.
  eexists. split.
  - unfold addOrUpdateEntry. cbn [lastSample].
    rewrite createNewEntry_sqlite_fresh by exact Hold.
    cbn [table timeoutIntervalInSeconds console]. rewrite setTime_self. reflexivity.
  - rewrite merge_branch; cbn [table lastSample timeoutIntervalInSeconds console].
    + now rewrite retime_app_last.
    + reflexivity.
    + exact Hnogap.
    + now apply NoDup_times_snoc.
    + rewrite times_app, in_app_iff. right. now left.
    + intros r Hr Hne. apply in_app_iff in Hr. destruct Hr as [Hr|[Hr|[]]].
      * intro Heq. apply Hnew. rewrite <- Heq. unfold times. now apply in_map.
      * now subst r.
Qed.

Lemma merge_idempotence_witness :
  addOrUpdateEntry sqlite 50 false true "" 5000
    (mkState [mkRow 1000 50 false true ""] (Some (mkRow 1000 50 false true "")) 30 [])
  = Return RetZero
      (mkState [mkRow 5000 50 false true ""] (Some (mkRow 5000 50 false true "")) 30 []).
Proof.
  refine (proj1 (merge_idempotence
    (mkState [mkRow 1000 50 false true ""] (Some (mkRow 1000 50 false true "")) 30 [])
    (mkRow 1000 50 false true "") 5000 eq_refl eq_refl _ _ _)).
  - repeat constructor. simpl. tauto.
  - simpl. tauto.
  - simpl. intros r [<-|[]] H. now elim H.
Defined.

(** C2. Gap back-fill.  The cache holds [l], the new sample is active, its
    event is not "Start", and more than [timeoutIntervalInSeconds] seconds
    have passed since [time l].  Then the call adds exactly two rows at the
    end of the table: the standby row at [time l] plus the timeout, with
    the energy and charging of [l], inactive and without event, and then
    the new sample at [now]; the cache holds the new sample and the call
    returns [now].  In particular, for a positive timeout [T], a cache
    [(t0, e0, false, true, "")] and a call with event "Foo" at [t0] plus
    twice the timeout, the rows are [(t0 + T, e0, false, false, "")] and
    [(t0 + 2T, e1, c1, true, "Foo")] (times in milliseconds). *)
Theorem gap_backfill (st : State) (l : Row) (e1 : Z) (c1 : bool) (ev : string) (now : Z)
    (Hlast : lastSample st = Some l)
    (Hev : ev <> "Start")
    (Hgap : 1000 * timeoutIntervalInSeconds st < now - time l)
    (Hmiss : ~ In (time l + 1000 * timeoutIntervalInSeconds st) (times (table st)))
    (Hnow : ~ In now (times (table st))) :
  addOrUpdateEntry sqlite e1 c1 true ev now st
  = Return (RetTime now)
      (mkState (table st ++ [mkRow (time l + 1000 * timeoutIntervalInSeconds st)
                                   (energy l) (charging l) false "";
                             mkRow now e1 c1 true ev])
               (Some (mkRow now e1 c1 true ev))
               (timeoutIntervalInSeconds st) (console st))
  /\ forall (tb : Table) (out : list string) (t0 e0 T : Z),
       0 < T ->
       ~ In (t0 + 1000 * T) (times tb) -> ~ In (t0 + 2 * (1000 * T)) (times tb) ->
       addOrUpdateEntry sqlite e1 c1 true "Foo" (t0 + 2 * (1000 * T))
         (mkState tb (Some (mkRow t0 e0 false true "")) T out)
       = Return (RetTime (t0 + 2 * (1000 * T)))
           (mkState (tb ++ [mkRow (t0 + 1000 * T) e0 false false "";
                            mkRow (t0 + 2 * (1000 * T)) e1 c1 true "Foo"])
                    (Some (mkRow (t0 + 2 * (1000 * T)) e1 c1 true "Foo")) T out).
Proof.
  split; [now apply gap_branch|].
  intros tb out t0 e0 T HT H1 H2.
  apply (gap_branch (mkState tb (Some (mkRow t0 e0 false true "")) T out)
                    (mkRow t0 e0 false true ""));
    cbn [time lastSample table timeoutIntervalInSeconds];
    [reflexivity | discriminate | lia | assumption | assumption].
Qed.

Lemma gap_backfill_witness :
  addOrUpdateEntry sqlite 40 true true "Charging" 100000
    (mkState [mkRow 5000 50 false true ""] (Some (mkRow 5000 50 false true "")) 30 [])
  = Return (RetTime 100000)
      (mkState [mkRow 5000 50 false true ""; mkRow 35000 50 false false "";
                mkRow 100000 40 true true "Charging"]
               (Some (mkRow 100000 40 true true "Charging")) 30 []).
Proof.
  refine (proj1 (gap_backfill
    (mkState [mkRow 5000 50 false true ""] (Some (mkRow 5000 50 false true "")) 30 [])
    (mkRow 5000 50 false true "") 40 true "Charging" 100000 eq_refl _ _ _ _)).
  - discriminate.
  - simpl. lia.
  - simpl. intros [H|[]]. discriminate.
  - simpl. intros [H|[]]. discriminate.
Defined.

(** C3. The cache after a failed write: the table was [reset] after a first
    sample, so the UPDATE of the merge case affects no row; the call logs
    the failure and still moves [lastTime] from 1000 to 2000.  With an
    engine whose INSERT affects no row the call returns the new time and
    replaces the whole cache. *)
Theorem cache_advanced_after_failed_write :
  lastSample staleState = Some (mkRow 1000 50 false false "")
  /\ addOrUpdateEntry sqlite 50 false false "" 2000 staleState
     = Return RetZero
         (mkState [] (Some (mkRow 2000 50 false false "")) 30
                  ["Failed to update previous energy_log entry."])
  /\ addOrUpdateEntry lossy 70 false false "" 2000 staleState
     = Return (RetTime 2000)
         (mkState [] (Some (mkRow 2000 70 false false "")) 30 []).
Proof. repeat split. Qed.

(** C10. [addEntry] never returns [false]: for every engine, also one that
    reports zero affected rows, a call that does not raise returns [true]
    (and a call that raises leaves the state as it was).  Hence for every
    engine a call of [addOrUpdateEntry] that returns has advanced the cache
    to [now], the only line it can have logged is the one of the merge
    case, and it returns 0 only from the merge case. *)
Theorem addEntry_never_false (E : Engine) :
  (forall t e c a ev st,
     match addEntry E t e c a ev st with
     | Return ok _ => ok = true
     | Thrown st' => st' = st
     end)
  /\ (forall e c a ev now st,
        let o := addOrUpdateEntry E e c a ev now st in
        (exists out,
            console (finalState o) = console st ++ out
            /\ (out = [] \/ out = ["Failed to update previous energy_log entry."]))
        /\ (forall v st', o = Return v st' ->
              exists l', lastSample st' = Some l' /\ time l' = now)
        /\ (forall st', o = Return RetZero st' ->
              exists l, lastSample st = Some l
                        /\ gapDetected st l a ev now = false
                        /\ sameAsLast l e c a ev = true)).
Proof.
  split.
  - intros t e c a ev st.
    destruct (addEntry_cases E t e c a ev st) as [[_ H]|[tb [n [_ H]]]];
      now rewrite H.
  - intros e c a ev now st o. subst o.
    destruct (addOrUpdateEntry_cases E e c a ev now st)
      as [[st1 [H [Hc Hl]]]|[[st1 [H [Hc Hl]]]|[l [st1 [out [Hl0 [Hg [Hs [H [Hc [Ho Hl]]]]]]]]]]];
      rewrite H; cbn [finalState].
    + split; [exists []; rewrite app_nil_r; auto|]. split; intros; discriminate.
    + split; [exists []; rewrite app_nil_r; auto|]. split.
      * intros v st' Hv. injection Hv as <- <-. eexists. split; [exact Hl|reflexivity].
      * intros; discriminate.
    + split; [exists out; auto|]. split.
      * intros v st' Hv. injection Hv as <- <-. eexists. split; [exact Hl|reflexivity].
      * intros st' _. exists l. auto.
Qed.

(** ** The primary key *)

Lemma retime_times_in (new old : Z) (tb : Table) (t : Z) :
  In t (times (retime new old tb)) -> t = new \/ (In t (times tb) /\ t <> old).
Proof.
  induction tb as [|x tb IH]; simpl; [tauto|].
  destruct (Z.eqb_spec (time x) old) as [E|E]; simpl; intros [H|H].
  - now left.
  - destruct (IH H) as [H'|[H' H'']]; auto.
  - right. subst t. auto.
  - destruct (IH H) as [H'|[H' H'']]; auto.
Qed.

Lemma retime_NoDup (new old : Z) (tb : Table) :
  NoDup (times tb) ->
  hasTime new (filter (fun r => negb (time r =? old)) tb) = false ->
  NoDup (times (retime new old tb)).
Proof.
  induction tb as [|x tb IH]; simpl; intros Hnd Hfree; [constructor|].
  inversion Hnd as [|? ? Hx Hnd']; subst.
  destruct (Z.eqb_spec (time x) old) as [E|E]; simpl in *.
  - subst old. rewrite (retime_absent _ _ _ Hx). constructor; [|assumption].
    apply hasTime_false_iff in Hfree. intro Hin. apply Hfree.
    unfold times in *. apply in_map_iff in Hin. destruct Hin as [r [Hr Hin]].
    apply in_map_iff. exists r. split; [assumption|]. apply filter_In.
    split; [assumption|]. apply negb_true_iff, Z.eqb_neq. intro Heq.
    apply Hx. apply in_map_iff. now exists r.
  - apply orb_false_iff in Hfree. destruct Hfree as [Hne Hfree].
    apply Z.eqb_neq in Hne. constructor; [|now apply IH].
    intro Hin. apply retime_times_in in Hin. destruct Hin as [Hin|[Hin _]];
      [congruence|contradiction].
Qed.

Lemma sqlite_keeps_key : KeepsKey sqlite.
Proof.
  split; simpl.
  - intros tb r tb' n Hnd. unfold sqliteInsert.
    destruct (hasTime (time r) tb) eqn:Hh; [discriminate|].
    intro H. injection H as <- <-. apply NoDup_times_snoc; [assumption|].
    now apply hasTime_false_iff.
  - intros tb new old tb' n Hnd. unfold sqliteUpdateTime.
    destruct (filter (fun r => time r =? old) tb) as [|h [|h' hit]].
    + intro H. now injection H as <- <-.
    + destruct (hasTime new (filter (fun r => negb (time r =? old)) tb)) eqn:Hh;
        [discriminate|].
      intro H. injection H as <- <-. now apply retime_NoDup.
    + discriminate.
Qed.

Lemma createNewEntry_keeps_key (E : Engine) (t e : Z) (c a : bool) (ev : string)
    (st : State) :
  KeepsKey E -> NoDup (times (table st)) ->
  NoDup (times (table (finalState (createNewEntry E t e c a ev st)))).
Proof.
  intros [Hins _] Hnd.
  destruct (createNewEntry_cases E t e c a ev st) as [[_ H]|[tb [n [Hx H]]]];
    rewrite H; cbn; [assumption|]. exact (Hins _ _ _ _ Hnd Hx).
Qed.

Lemma addOrUpdateEntry_keeps_key (E : Engine) (e : Z) (c a : bool) (ev : string)
    (now : Z) (st : State) :
  KeepsKey E -> NoDup (times (table st)) ->
  NoDup (times (table (finalState (addOrUpdateEntry E e c a ev now st)))).
Proof.
  intros HE Hnd. unfold addOrUpdateEntry.
  destruct (lastSample st) as [l|]; [|now apply createNewEntry_keeps_key].
  destruct (_ && _ && _).
  - unfold bind at 1.
    destruct (addEntry_cases E (time l + 1000 * timeoutIntervalInSeconds st)
                (energy l) (charging l) false "" st) as [[_ H]|[tb [n [Hx H]]]];
      rewrite H; [assumption|].
    change (negb true) with false. cbv iota.
    apply createNewEntry_keeps_key; [assumption|]. cbn.
    exact (proj1 HE _ _ _ _ Hnd Hx).
  - destruct (sameAsLast l e c a ev); [|now apply createNewEntry_keeps_key].
    unfold bind, transaction, setLast, ret.
    destruct (execUpdateTime E (table st) now (time l)) as [tb n|] eqn:Hx;
      [|assumption].
    pose proof (proj2 HE _ _ _ _ _ Hnd Hx) as Hnd'.
    destruct (Nat.eqb n 0); cbn; assumption.
Qed.

Lemma run_keeps_key (E : Engine) (calls : list Call) :
  KeepsKey E -> forall st, NoDup (times (table st)) ->
  NoDup (times (table (run E st calls))).
Proof.
  intro HE. induction calls as [|c calls IH]; intros st Hnd; [assumption|].
  simpl. apply IH. unfold step. now apply addOrUpdateEntry_keeps_key.
Qed.

(** ** Increasing instants and a positive timeout: no call raises *)

Lemma merge_branch_miss (st : State) (l : Row) (now : Z) :
  lastSample st = Some l ->
  gapDetected st l (active l) (event l) now = false ->
  ~ In (time l) (times (table st)) ->
  addOrUpdateEntry sqlite (energy l) (charging l) (active l) (event l) now st
  = Return RetZero
      (mkState (table st) (Some (setTime now l)) (timeoutIntervalInSeconds st)
               (console st ++ ["Failed to update previous energy_log entry."])).
Proof.
  intros Hl Hgap Hmiss. unfold addOrUpdateEntry. rewrite Hl.
  unfold gapDetected in Hgap. rewrite Hgap, sameAsLast_refl.
  unfold bind, transaction. simpl execUpdateTime.
  now rewrite (sqliteUpdateTime_miss _ _ _ Hmiss).
Qed.

Lemma sorted_lt_NoDup (l : list Z) : StronglySorted Z.lt l -> NoDup l.
Proof.
  induction 1 as [|x l Hs IH Hall]; constructor; [|assumption].
  intro Hin. rewrite Forall_forall in Hall. specialize (Hall x Hin). lia.
Qed.

Lemma sorted_lt_snoc (l : list Z) (x : Z) :
  StronglySorted Z.lt l -> Forall (fun t => t < x) l ->
  StronglySorted Z.lt (l ++ [x]).
Proof.
  induction 1 as [|y l Hs IH Hall]; simpl; intro Hlt.
  - repeat constructor.
  - inversion Hlt; subst. constructor; [now apply IH|].
    apply Forall_app. split; [assumption|]. now repeat constructor.
Qed.

Lemma Forall_le_lt (l : list Z) (a b : Z) :
  a < b -> Forall (fun t => t <= a) l -> Forall (fun t => t < b) l.
Proof. intros Hab. apply Forall_impl. intros; lia. Qed.

Lemma Forall_le_not_in (l : list Z) (a b : Z) :
  a < b -> Forall (fun t => t <= a) l -> ~ In b l.
Proof.
  intros Hab Hall Hin. rewrite Forall_forall in Hall. specialize (Hall b Hin). lia.
Qed.

Lemma retime_sorted (now t0 : Z) (tb : Table) :
  t0 < now ->
  StronglySorted Z.lt (times tb) -> Forall (fun t => t <= t0) (times tb) ->
  StronglySorted Z.lt (times (retime now t0 tb))
  /\ Forall (fun t => t <= now) (times (retime now t0 tb)).
Proof.
  intro Hlt. induction tb as [|x tb IH]; simpl; intros Hs Hle.
  - split; constructor.
  - inversion Hs as [|? ? Hs' Hall]; subst. inversion Hle as [|? ? Hx Hle']; subst.
    destruct (IH Hs' Hle') as [IH1 IH2].
    destruct (Z.eqb_spec (time x) t0) as [E|E]; simpl.
    + assert (Htb : tb = []).
      { destruct tb as [|y tb]; [reflexivity|]. exfalso.
        inversion Hall; subst. inversion Hle'; subst. lia. }
      subst tb. simpl. split; repeat constructor. lia.
    + split.
      * constructor; [assumption|]. rewrite Forall_forall. intros t Ht.
        apply retime_times_in in Ht. destruct Ht as [Ht|[Ht _]]; [lia|].
        rewrite Forall_forall in Hall. now apply Hall.
      * constructor; [lia|assumption].
Qed.

Lemma step_ordered (st : State) (c : Call) :
  0 < timeoutIntervalInSeconds st ->
  Ordered st ->
  match lastSample st with Some l => time l < cnow c | None => True end ->
  exists v st',
    addOrUpdateEntry sqlite (cenergy c) (ccharging c) (cactive c) (cevent c)
      (cnow c) st = Return v st'
    /\ Ordered st'
    /\ timeoutIntervalInSeconds st' = timeoutIntervalInSeconds st
    /\ exists l', lastSample st' = Some l' /\ time l' = cnow c.
Proof.
  destruct c as [e ch a ev now]. cbn [cenergy ccharging cactive cevent cnow].
  intros HT [Hs Hc] Hnow.
  assert (Hfresh : forall s,
    StronglySorted Z.lt (times (table s)) ->
    Forall (fun t => t < now) (times (table s)) ->
    exists v st',
      createNewEntry sqlite now e ch a ev s = Return v st'
      /\ Ordered st'
      /\ timeoutIntervalInSeconds st' = timeoutIntervalInSeconds s
      /\ exists l', lastSample st' = Some l' /\ time l' = now).
  { intros s Hss Hlt. eexists. eexists. split.
    - apply createNewEntry_sqlite_fresh. intro Hin. rewrite Forall_forall in Hlt.
      specialize (Hlt now Hin). lia.
    - split; [|split; [reflexivity|eexists; split; reflexivity]].
      split; cbn [table lastSample time]; rewrite times_app.
      + now apply sorted_lt_snoc.
      + apply Forall_app. split; [|repeat constructor; cbn [time times map]; lia].
        revert Hlt. apply Forall_impl. intros; lia. }
  destruct (lastSample st) as [l|] eqn:Hl.
  - destruct (gapDetected st l a ev now) eqn:Hgap.
    + unfold gapDetected in Hgap. rewrite !andb_true_iff in Hgap.
      destruct Hgap as [[Ha Hev] Hto]. subst a.
      apply negb_true_iff, String.eqb_neq in Hev. apply Z.ltb_lt in Hto.
      eexists. eexists. split.
      * apply (gap_branch st l e ch ev now Hl Hev Hto).
        -- apply (Forall_le_not_in _ (time l)); [lia|assumption].
        -- apply (Forall_le_not_in _ (time l)); [lia|assumption].
      * split; [|split; [reflexivity|eexists; split; reflexivity]].
        split; cbn [table lastSample time].
        -- change [mkRow (time l + 1000 * timeoutIntervalInSeconds st) (energy l)
                          (charging l) false ""; mkRow now e ch true ev]
             with ([mkRow (time l + 1000 * timeoutIntervalInSeconds st) (energy l)
                          (charging l) false ""] ++ [mkRow now e ch true ev]).
           rewrite app_assoc, times_app. apply sorted_lt_snoc.
           ++ rewrite times_app. apply sorted_lt_snoc; [assumption|].
              apply (Forall_le_lt _ (time l)); [cbn [time times map]; lia|assumption].
           ++ rewrite times_app. apply Forall_app. split.
              ** apply (Forall_le_lt _ (time l)); [cbn [time]; lia|assumption].
              ** repeat constructor. cbn [time times map]. lia.
        -- rewrite times_app. apply Forall_app. split.
           ++ revert Hc. apply Forall_impl. intros; lia.
           ++ repeat constructor; cbn [time times map]; lia.
    + destruct (sameAsLast l e ch a ev) eqn:Hsame.
      * apply sameAsLast_true in Hsame. destruct Hsame as [-> [-> [-> ->]]].
        destruct (in_dec Z.eq_dec (time l) (times (table st))) as [Hin|Hout].
        -- eexists. eexists. split.
           ++ apply (merge_branch st l now Hl Hgap); [now apply sorted_lt_NoDup|assumption|].
              intros r Hr _. apply (Forall_le_not_in _ (time l) now) in Hc; [|lia].
              intro Heq. apply Hc. rewrite <- Heq. unfold times. now apply in_map.
           ++ split; [|split; [reflexivity|eexists; split; reflexivity]].
              split; cbn [table lastSample time setTime];
                now apply (retime_sorted now (time l)).
        -- eexists. eexists. split.
           ++ apply (merge_branch_miss st l now Hl Hgap Hout).
           ++ split; [|split; [reflexivity|eexists; split; reflexivity]].
              split; cbn [table lastSample time setTime]; [assumption|].
              revert Hc. apply Forall_impl. intros; lia.
      * assert (Hgo : addOrUpdateEntry sqlite e ch a ev now st
                      = createNewEntry sqlite now e ch a ev st).
        { unfold addOrUpdateEntry. rewrite Hl. unfold gapDetected in Hgap.
          now rewrite Hgap, Hsame. }
        rewrite Hgo. apply Hfresh; [assumption|].
        apply (Forall_le_lt _ (time l)); assumption.
  - assert (Hgo : addOrUpdateEntry sqlite e ch a ev now st
                  = createNewEntry sqlite now e ch a ev st).
    { unfold addOrUpdateEntry. now rewrite Hl. }
    rewrite Hgo. apply Hfresh; rewrite Hc; constructor.
Qed.

Lemma run_ordered (calls : list Call) :
  forall st,
    0 < timeoutIntervalInSeconds st ->
    Ordered st ->
    match lastSample st with
    | Some l => increasingFrom (time l) (map cnow calls) = true
    | None => strictlyIncreasing (map cnow calls) = true
    end ->
    allReturn sqlite st calls /\ Ordered (run sqlite st calls).
Proof.
  induction calls as [|c calls IH]; intros st HT Hord Hinc.
  - split; [exact I|exact Hord].
  - assert (Hnow : match lastSample st with
                   | Some l => time l < cnow c | None => True end).
    { destruct (lastSample st); [|exact I]. simpl in Hinc.
      apply andb_true_iff in Hinc. now apply Z.ltb_lt. }
    assert (Hrest : increasingFrom (cnow c) (map cnow calls) = true).
    { destruct (lastSample st); simpl in Hinc; [|assumption].
      now apply andb_true_iff in Hinc. }
    destruct (step_ordered st c HT Hord Hnow) as [v [st' [Hr [Ho [Ht [l' [Hl' Htl]]]]]]].
    destruct (IH st') as [Hall Hfin].
    + now rewrite Ht.
    + assumption.
    + now rewrite Hl', Htl.
    + split.
      * simpl. exists v, st'. auto.
      * simpl. unfold step. now rewrite Hr.
Qed.

(** On a fresh installation with a positive timeout, calls at strictly
    increasing instants all return, and the table stays in ascending order
    of [time]: the key is kept by the instants chosen, not by a statement
    that raised. *)
Lemma run_fresh_ascending (timeout : Z) (calls : list Call) :
  0 < timeout ->
  strictlyIncreasing (map cnow calls) = true ->
  allReturn sqlite (freshState timeout) calls
  /\ StronglySorted Z.lt (times (table (run sqlite (freshState timeout) calls))).
Proof.
  intros HT Hinc.
  destruct (run_ordered calls (freshState timeout)) as [Hall [Hs _]];
    [exact HT|split; [constructor|reflexivity]|exact Hinc|].
  split; assumption.
Qed.

(** C9. Uniqueness of timestamps: after any sequence of calls of
    [addOrUpdateEntry] made at strictly increasing instants on a fresh
    installation, no two rows of the table have the same [time].  With a
    positive timeout this is not owed to a statement that was refused:
    every call returns, whether it inserts, retimes the last row or
    back-fills, and the rows stay in strictly ascending order of time. *)
Theorem timestamps_unique (timeout : Z) (calls : list Call)
    (Hinc : strictlyIncreasing (map cnow calls) = true) :
  NoDup (times (table (run sqlite (freshState timeout) calls)))
  /\ (0 < timeout ->
      allReturn sqlite (freshState timeout) calls
      /\ StronglySorted Z.lt (times (table (run sqlite (freshState timeout) calls)))).
Proof.
  split.
  - apply run_keeps_key; [exact sqlite_keeps_key|]. constructor.
  - intro HT. now apply run_fresh_ascending.
Qed.

Lemma timestamps_unique_witness :
  NoDup (times (table (run sqlite (freshState 30) sampleCalls)))
  /\ times (table (run sqlite (freshState 30) sampleCalls))
     = [2000; 3000; 33000; 100000].
Proof.
  split; [exact (proj1 (timestamps_unique 30 sampleCalls eq_refl))|reflexivity].
Defined.

(** ** ORDER BY and LIMIT *)

Lemma insertByTime_perm (r : Row) (l : Table) :
  Permutation (insertByTime r l) (r :: l).
Proof.
  induction l as [|x l IH]; simpl; [apply Permutation_refl|].
  destruct (time r <? time x); [apply Permutation_refl|].
  apply perm_trans with (x :: r :: l); [now apply perm_skip|apply perm_swap].
Qed.

Lemma orderByTimeAsc_perm (l : Table) : Permutation (orderByTimeAsc l) l.
Proof.
  induction l as [|x l IH]; simpl; [apply perm_nil|].
  apply perm_trans with (x :: orderByTimeAsc l);
    [apply insertByTime_perm|now apply perm_skip].
Qed.

Lemma orderByTimeAsc_In (l : Table) (r : Row) :
  In r (orderByTimeAsc l) <-> In r l.
Proof.
  split; apply Permutation_in;
    [apply orderByTimeAsc_perm|apply Permutation_sym, orderByTimeAsc_perm].
Qed.

Lemma insertByTime_sorted (r : Row) (l : Table) :
  StronglySorted timeLe l -> StronglySorted timeLe (insertByTime r l).
Proof.
  induction 1 as [|x l Hs IH Hall]; simpl; [repeat constructor|].
  destruct (Z.ltb_spec (time r) (time x)) as [Hlt|Hge].
  - constructor; [now constructor|]. constructor; [unfold timeLe; lia|].
    revert Hall. apply Forall_impl. unfold timeLe. intros; lia.
  - constructor; [assumption|].
    apply (Permutation_Forall (Permutation_sym (insertByTime_perm r l))).
    constructor; [exact Hge|assumption].
Qed.

Lemma orderByTimeAsc_sorted (l : Table) : StronglySorted timeLe (orderByTimeAsc l).
Proof.
  induction l as [|x l IH]; simpl; [constructor|now apply insertByTime_sorted].
Qed.

Lemma firstn_In (n : nat) (l : Table) (x : Row) : In x (firstn n l) -> In x l.
Proof.
  intro H. rewrite <- (firstn_skipn n l). apply in_app_iff. now left.
Qed.

Lemma sorted_firstn (n : nat) (l : Table) :
  StronglySorted timeLe l -> StronglySorted timeLe (firstn n l).
Proof.
  intro Hs. revert n. induction Hs as [|x l Hs IH Hall]; intros [|n]; simpl;
    try constructor; [apply IH|].
  rewrite Forall_forall in *. intros y Hy. apply Hall.
  now apply (firstn_In n).
Qed.

Lemma sorted_snoc_inv (l : Table) (x : Row) :
  StronglySorted timeLe (l ++ [x]) -> Forall (fun y => timeLe y x) l.
Proof.
  induction l as [|a l IH]; simpl; intro Hs; [constructor|].
  inversion Hs as [|? ? Hs' Hall]; subst. constructor; [|now apply IH].
  rewrite Forall_forall in Hall. apply Hall. apply in_app_iff. right. now left.
Qed.

Lemma same_time_same_row (tb : Table) (a b : Row) :
  NoDup (times tb) -> In a tb -> In b tb -> time a = time b -> a = b.
Proof.
  induction tb as [|x tb IH]; simpl; intros Hnd Ha Hb Ht; [contradiction|].
  inversion Hnd as [|? ? Hx Hnd']; subst.
  destruct Ha as [Ha|Ha], Hb as [Hb|Hb]; subst.
  - reflexivity.
  - exfalso. apply Hx. rewrite Ht. unfold times. now apply in_map.
  - exfalso. apply Hx. rewrite <- Ht. unfold times. now apply in_map.
  - now apply IH.
Qed.

Lemma NoDup_times_perm (a b : Table) :
  Permutation a b -> NoDup (times a) -> NoDup (times b).
Proof.
  intros Hp. apply Permutation_NoDup. unfold times. now apply Permutation_map.
Qed.

Lemma NoDup_times_filter (f : Row -> bool) (tb : Table) :
  NoDup (times tb) -> NoDup (times (filter f tb)).
Proof.
  induction tb as [|x tb IH]; simpl; intro Hnd; [constructor|].
  inversion Hnd as [|? ? Hx Hnd']; subst.
  destruct (f x); simpl; [|now apply IH].
  constructor; [|now apply IH].
  intro Hin. apply Hx. unfold times in *. apply in_map_iff in Hin.
  destruct Hin as [r [Hr Hin]]. apply filter_In in Hin.
  apply in_map_iff. exists r. tauto.
Qed.

Lemma NoDup_times_firstn (n : nat) (tb : Table) :
  NoDup (times tb) -> NoDup (times (firstn n tb)).
Proof.
  revert n. induction tb as [|x tb IH]; intros [|n] Hnd; simpl; try constructor.
  - inversion Hnd; subst. intro Hin. unfold times in *.
    apply in_map_iff in Hin. destruct Hin as [r [Hr Hin]].
    apply firstn_In in Hin. apply H1. apply in_map_iff. now exists r.
  - inversion Hnd; subst. now apply IH.
Qed.

(** With a key, ascending order is strict. *)
Lemma sorted_strict (l : Table) :
  StronglySorted timeLe l -> NoDup (times l) -> StronglySorted Z.lt (times l).
Proof.
  induction 1 as [|x l Hs IH Hall]; simpl; intro Hnd; [constructor|].
  inversion Hnd as [|? ? Hx Hnd']; subst. constructor; [now apply IH|].
  rewrite Forall_forall in *. intros t Ht. unfold times in Ht.
  apply in_map_iff in Ht. destruct Ht as [r [Hr Hin]]. subst t.
  specialize (Hall r Hin). unfold timeLe in Hall.
  assert (time x <> time r).
  { intro Heq. apply Hx. rewrite Heq. unfold times. now apply in_map. }
  lia.
Qed.


Lemma limit1_none (tb : Table) (f : Row -> bool) :
  (forall x, In x tb -> f x = false) ->
  limit 1 (orderByTimeAsc (filter f tb)) = [].
Proof.
  intro H. replace (filter f tb) with (@nil Row); [reflexivity|].
  symmetry. induction tb as [|x tb IH]; simpl; [reflexivity|].
  rewrite (H x (or_introl eq_refl)). apply IH. intros y Hy. apply H. now right.
Qed.

(** ** The window query *)

Lemma convert_roundtrip (P : Platform) (r : Row) :
  RoundTrip P -> convertItemToEntry P r = rowEntry r.
Proof.
  intro Hrt. unfold convertItemToEntry, rowEntry, adjusted. now rewrite Hrt.
Qed.

Lemma map_convert_roundtrip (P : Platform) (l : Table) :
  RoundTrip P -> map (convertItemToEntry P) l = map rowEntry l.
Proof.
  intro Hrt. apply map_ext. intro r. now apply convert_roundtrip.
Qed.

Lemma filter_none (f : Row -> bool) (tb : Table) :
  (forall x, In x tb -> f x = false) -> filter f tb = [].
Proof.
  induction tb as [|x tb IH]; simpl; intro H; [reflexivity|].
  rewrite (H x (or_introl eq_refl)). apply IH. intros y Hy. apply H. now right.
Qed.

Lemma getLatestEntries_few (P : Platform) (tb : Table) (dayCount dayOffset now : Z) :
  (List.length (selectBetween tb (daysBefore now (dayCount + dayOffset))
                              (daysBefore now dayOffset)) < 2)%nat ->
  getLatestEntries P tb dayCount dayOffset now
  = map (convertItemToEntry P)
        (selectBetween tb (daysBefore now (dayCount + dayOffset))
                       (daysBefore now dayOffset)).
Proof.
  unfold getLatestEntries.
  destruct (selectBetween tb _ _) as [|a [|b l]]; simpl; intro H;
    [reflexivity|reflexivity|lia].
Qed.

Lemma getLatestEntries_many (P : Platform) (tb : Table) (dayCount dayOffset now : Z)
    (a : Row) (rest : Table) :
  selectBetween tb (daysBefore now (dayCount + dayOffset)) (daysBefore now dayOffset)
  = a :: rest ->
  (2 <= List.length (a :: rest))%nat ->
  getLatestEntries P tb dayCount dayOffset now
  = addBeforeStart P tb (daysBefore now (dayCount + dayOffset))
      (addAfterEnd P tb (daysBefore now dayOffset)
         (map (convertItemToEntry P) (a :: rest))
         (last (map (convertItemToEntry P) (a :: rest)) (convertItemToEntry P a)))
      (convertItemToEntry P a).
Proof.
  intros Hsel Hlen. unfold getLatestEntries. rewrite Hsel.
  destruct rest as [|b l]; [simpl in Hlen; lia|reflexivity].
Qed.

(** C4, the claim as stated fails: with rows at day 0 (energy 100) and day
    100 (energy 0) only, the query for the window from day 25 to day 75
    does not return two synthetic rows at days 25 and 75 with energies 75
    and 25. *)
Lemma window_without_rows_counterexample :
  ~ (exists a b,
       getLatestEntries utc twoRowTable 50 25 (days 100) = [a; b]
       /\ etime a = days 25 /\ (eenergy a == 75)%Q
       /\ etime b = days 75 /\ (eenergy b == 25)%Q).
Proof. intros [a [b [H _]]]. discriminate H. Qed.

(** C4, amended.  A table whose only rows are at day 0 and at day 100 has
    no row strictly inside the window from day 25 to day 75, and the query
    returns the empty sequence, on every platform and whatever the two rows
    carry.  In general a window with fewer than two rows strictly inside it
    is returned as fetched, without boundary entries. *)
Theorem window_without_rows_is_empty :
  (forall (P : Platform) (e0 e1 : Z) (c0 a0 c1 a1 : bool) (v0 v1 : string),
     getLatestEntries P [mkRow (days 0) e0 c0 a0 v0; mkRow (days 100) e1 c1 a1 v1]
       50 25 (days 100) = [])
  /\ (forall (P : Platform) (tb : Table) (dayCount dayOffset now : Z),
        (List.length (selectBetween tb (daysBefore now (dayCount + dayOffset))
                                    (daysBefore now dayOffset)) < 2)%nat ->
        getLatestEntries P tb dayCount dayOffset now
        = map (convertItemToEntry P)
              (selectBetween tb (daysBefore now (dayCount + dayOffset))
                             (daysBefore now dayOffset))).
Proof.
  split; [reflexivity|apply getLatestEntries_few].
Qed.

(** C5, the code at a failing input: the first row inside the window from
    day 5 to day 10 has the event "Start", and the query still puts an
    interpolated entry for day 5 in front of it, blended with the row of
    day 4 (energy 80 * 1/2 + 100 * 1/2 = 90). *)
Theorem start_boundary_ignores_start_event :
  exists synth rest,
    getLatestEntries utc startTable 5 0 (days 10)
    = synth :: rowEntry (mkRow (days 6) 80 false true "Start") :: rest
    /\ etime synth = days 5
    /\ (eenergy synth == 90)%Q.
Proof.
  eexists. eexists. split; [reflexivity|]. split; reflexivity.
Qed.

Lemma selectBetween_In (tb : Table) (startTime endTime : Z) (r : Row) :
  In r (selectBetween tb startTime endTime)
  <-> In r tb /\ startTime < time r < endTime.
Proof.
  unfold selectBetween. rewrite orderByTimeAsc_In, filter_In, andb_true_iff,
    !Z.ltb_lt. tauto.
Qed.



(** The first row of a descending selection is the latest one. *)
Lemma limit1_latest (tb : Table) (f : Row -> bool) (r : Row) :
  NoDup (times tb) -> In r tb -> f r = true ->
  (forall x, In x tb -> f x = true -> time x <= time r) ->
  limit 1 (orderByTimeDesc (filter f tb)) = [r].
Proof.
  intros Hnd Hin Hf Hmax. unfold orderByTimeDesc.
  assert (Hr : In r (orderByTimeAsc (filter f tb))).
  { apply orderByTimeAsc_In, filter_In. auto. }
  pose proof (orderByTimeAsc_sorted (filter f tb)) as Hs.
  assert (Hall : forall x, In x (orderByTimeAsc (filter f tb)) -> In x tb /\ f x = true).
  { intros x Hx. apply orderByTimeAsc_In, filter_In in Hx. exact Hx. }
  destruct (rev (orderByTimeAsc (filter f tb))) as [|h s] eqn:Hrev.
  - apply in_rev in Hr. rewrite Hrev in Hr. contradiction.
  - unfold limit. simpl. f_equal.
    assert (Hsplit : orderByTimeAsc (filter f tb) = rev s ++ [h]).
    { rewrite <- (rev_involutive (orderByTimeAsc (filter f tb))), Hrev. reflexivity. }
    rewrite Hsplit in Hs, Hr, Hall.
    destruct (Hall h) as [Hh Hfh]; [apply in_app_iff; right; now left|].
    apply (same_time_same_row tb); try assumption.
    pose proof (Hmax h Hh Hfh) as H1.
    apply in_app_iff in Hr. destruct Hr as [Hr|[Hr|[]]]; [|now subst].
    apply sorted_snoc_inv in Hs. rewrite Forall_forall in Hs.
    specialize (Hs r Hr). unfold timeLe in Hs. lia.
Qed.



Lemma addAfterEnd_extends (P : Platform) (tb : Table) (endTime : Z)
    (entries : list Entry) (endEntry : Entry) :
  exists suffix, addAfterEnd P tb endTime entries endEntry = entries ++ suffix.
Proof.
  unfold addAfterEnd. destruct (negb (eevent endEntry =? "Stop")%string).
  - destruct (selectNextAfter tb (etime endEntry)) as [|item [|item' more]].
    + exists []. now rewrite app_nil_r.
    + eexists. reflexivity.
    + exists []. now rewrite app_nil_r.
  - exists []. now rewrite app_nil_r.
Qed.

(** The start boundary as the code computes it: whenever at least two rows
    lie inside the window and some row is earlier than the first of them,
    an interpolated entry is put in front, whatever the event of the first
    row of the window is. *)
Lemma start_boundary_unconditional (P : Platform) (tb : Table)
    (dayCount dayOffset now : Z) (firstRow prev : Row) (rest : Table) :
  RoundTrip P -> NoDup (times tb) ->
  selectBetween tb (daysBefore now (dayCount + dayOffset)) (daysBefore now dayOffset)
  = firstRow :: rest ->
  rest <> [] ->
  In prev tb -> time prev < time firstRow ->
  (forall r, In r tb -> time r < time firstRow -> time r <= time prev) ->
  exists tail,
    getLatestEntries P tb dayCount dayOffset now
    = mkEntry (daysBefore now (dayCount + dayOffset))
        (blend (inject_Z (energy firstRow)) (inject_Z (energy prev))
               (daysBefore now (dayCount + dayOffset)) (time firstRow) (time prev))
        (charging prev) (active prev) (event prev)
      :: rowEntry firstRow :: tail.
Proof.
  intros Hrt Hkey Hrows Hrest Hprev Hbefore Hmax.
  rewrite (getLatestEntries_many P tb dayCount dayOffset now firstRow rest Hrows)
    by (destruct rest; [congruence|simpl; lia]).
  destruct (addAfterEnd_extends P tb (daysBefore now dayOffset)
              (map (convertItemToEntry P) (firstRow :: rest))
              (last (map (convertItemToEntry P) (firstRow :: rest))
                    (convertItemToEntry P firstRow))) as [suffix Hsuf].
  rewrite Hsuf. unfold addBeforeStart, entryIsNotString.
  rewrite (convert_roundtrip P firstRow Hrt). cbn [etime eenergy rowEntry].
  assert (Hsel : selectLastBefore tb (time firstRow) = [prev]).
  { unfold selectLastBefore.
    apply (limit1_latest tb (fun r => time r <? time firstRow) prev Hkey Hprev).
    - now apply Z.ltb_lt.
    - intros x Hx Hlt. apply Z.ltb_lt in Hlt. now apply Hmax. }
  rewrite Hsel, (convert_roundtrip P prev Hrt). cbn [etime eenergy rowEntry map].
  rewrite (convert_roundtrip P firstRow Hrt).
  eexists. reflexivity.
Qed.

(** ** The event timeline *)

Lemma collectEvents_keeps_changes (P : Platform) (rest : Table) :
  RoundTrip P -> forall prev,
  collectEvents P rest (Some (event prev))
  = map eventEntry
      (map snd (filter (fun pc => negb (event (fst pc) =? event (snd pc))%string)
                       (combine (prev :: rest) rest))).
Proof.
  intro Hrt. induction rest as [|r rest IH]; intro prev; [reflexivity|].
  cbn [collectEvents combine filter fst snd].
  rewrite (String.eqb_sym (event prev) (event r)).
  destruct (String.eqb_spec (event r) (event prev)) as [E|E]; cbn [negb].
  - rewrite <- E. apply IH.
  - cbn [map snd]. rewrite IH. unfold eventEntry at 2, adjusted.
    now rewrite Hrt.
Qed.

Lemma collectEvents_collapse (P : Platform) (rows : Table) :
  RoundTrip P -> collectEvents P rows None = map eventEntry (collapseRuns rows).
Proof.
  intro Hrt. destruct rows as [|r rest]; [reflexivity|].
  cbn [collectEvents collapseRuns map]. unfold consecutivePairs. cbn [tl].
  rewrite (collectEvents_keeps_changes P rest Hrt r).
  unfold eventEntry at 3, adjusted. now rewrite Hrt.
Qed.

Lemma collectEvents_noRepeat (P : Platform) (rows : Table) :
  forall lastEvent,
  noRepeatFrom lastEvent (map vevent (collectEvents P rows lastEvent)).
Proof.
  induction rows as [|r rows IH]; intro lastEvent; [exact I|].
  cbn [collectEvents].
  destruct lastEvent as [e|].
  - destruct (String.eqb_spec (event r) e) as [E|E]; cbn [negb].
    + apply IH.
    + cbn [map vevent noRepeatFrom]. split; [congruence|apply IH].
  - cbn [map vevent noRepeatFrom]. split; [discriminate|apply IH].
Qed.

Lemma collectEvents_sub (P : Platform) (rows : Table) :
  forall lastEvent e, In e (collectEvents P rows lastEvent) ->
  exists r, In r rows
            /\ e = mkEventEntry (adjusted P r) (energy r) (charging r) (event r).
Proof.
  induction rows as [|r rows IH]; intros lastEvent e; cbn [collectEvents];
    [contradiction|].
  destruct (match lastEvent with
            | Some e0 => negb (event r =? e0)%string | None => true end).
  - intros [H|H].
    + exists r. split; [now left|now symmetry].
    + destruct (IH _ _ H) as [r' [Hr' He]]. exists r'. split; [now right|assumption].
  - intro H. destruct (IH _ _ H) as [r' [Hr' He]]. exists r'.
    split; [now right|assumption].
Qed.

Lemma collectEvents_sorted (P : Platform) (rows : Table) :
  RoundTrip P -> StronglySorted Z.lt (times rows) ->
  forall lastEvent,
  StronglySorted Z.lt (map vtime (collectEvents P rows lastEvent)).
Proof.
  intros Hrt. induction rows as [|r rows IH]; intros Hs lastEvent;
    cbn [collectEvents]; [constructor|].
  inversion Hs as [|? ? Hs' Hall]; subst.
  destruct (match lastEvent with
            | Some e0 => negb (event r =? e0)%string | None => true end);
    [|now apply IH].
  cbn [map vtime]. constructor; [now apply IH|].
  rewrite Forall_forall in *. intros t Ht. apply in_map_iff in Ht.
  destruct Ht as [e [He Hin]]. apply collectEvents_sub in Hin.
  destruct Hin as [r' [Hr' He']]. subst e t. cbn [vtime]. unfold adjusted.
  rewrite !Hrt. apply Hall. unfold times. now apply in_map.
Qed.

Lemma selectEvents_In (tb : Table) (startTime : Z) (r : Row) :
  In r (selectEvents tb startTime) ->
  In r tb /\ startTime < time r /\ event r <> "" /\ event r <> "Stop".
Proof.
  unfold selectEvents, limit. intro H. apply firstn_In in H.
  apply orderByTimeAsc_In, filter_In in H. destruct H as [Hin Hf].
  rewrite !andb_true_iff, !negb_true_iff in Hf. destruct Hf as [[H1 H2] H3].
  apply Z.ltb_lt in H1. apply String.eqb_neq in H2. apply String.eqb_neq in H3.
  auto.
Qed.

Lemma selectEvents_sorted (tb : Table) (startTime : Z) :
  NoDup (times tb) -> StronglySorted Z.lt (times (selectEvents tb startTime)).
Proof.
  intro Hkey. unfold selectEvents, limit. apply sorted_strict.
  - apply sorted_firstn, orderByTimeAsc_sorted.
  - apply NoDup_times_firstn.
    apply (NoDup_times_perm _ _ (Permutation_sym (orderByTimeAsc_perm _))).
    now apply NoDup_times_filter.
Qed.

(** C7, the claim as stated fails: the query bounds the time from below
    only, and a row stored with a time later than [now] comes back as an
    entry later than [now]. *)
Lemma event_timeline_counterexample :
  ~ (forall e,
       In e (getLatestEvents utc (chargingTable 1000 2000 3000 4000) 1 2500) ->
       daysBefore 2500 1 <= vtime e <= 2500).
Proof.
  intro H. specialize (H (mkEventEntry 3000 30 true "Full")).
  assert (3000 <= 2500); [|lia]. apply H. vm_compute. tauto.
Qed.

(** C7, amended.  The event timeline.  Every entry is a row of the table
    whose event is neither empty nor "Stop" and whose time is after
    [now - dayCount]; the query sets no upper bound on the time.  The
    entries are in ascending order of time; at most 400 matching rows are
    read; the result is these rows with runs of one label collapsed to
    their first row, so that no label is followed by itself; and rows with
    the labels Charging, Charging, Full, Charging at increasing times give
    the three entries Charging, Full, Charging. *)
Theorem event_timeline (P : Platform) (tb : Table) (dayCount now : Z)
    (Hrt : RoundTrip P)
    (Hkey : NoDup (times tb)) :
  let result := getLatestEvents P tb dayCount now in
  let matching := selectEvents tb (daysBefore now dayCount) in
  (forall e, In e result ->
     exists r, In r tb /\ e = eventEntry r
               /\ vevent e <> "" /\ vevent e <> "Stop"
               /\ daysBefore now dayCount < vtime e)
  /\ StronglySorted Z.lt (map vtime result)
  /\ (List.length matching <= 400)%nat
  /\ result = map eventEntry (collapseRuns matching)
  /\ noRepeatFrom None (map vevent result)
  /\ (forall t1 t2 t3 t4,
        daysBefore now dayCount < t1 -> t1 < t2 -> t2 < t3 -> t3 < t4 ->
        map vevent (getLatestEvents P (chargingTable t1 t2 t3 t4) dayCount now)
        = ["Charging"; "Full"; "Charging"]).
Proof.
  intros result matching. subst result matching. unfold getLatestEvents.
  split; [|split; [|split; [|split; [|split]]]].
  - intros e H. apply collectEvents_sub in H. destruct H as [r [Hr He]].
    apply selectEvents_In in Hr. destruct Hr as [Hin [Hstart [Hne Hns]]].
    exists r. unfold adjusted in He. rewrite Hrt in He. subst e.
    cbn [vevent vtime]. repeat split; auto.
  - apply collectEvents_sorted; [assumption|now apply selectEvents_sorted].
  - unfold selectEvents, limit. apply firstn_le_length.
  - now apply collectEvents_collapse.
  - apply collectEvents_noRepeat.
  - intros t1 t2 t3 t4 H0 H1 H2 H3.
    assert (Hsel : selectEvents (chargingTable t1 t2 t3 t4) (daysBefore now dayCount)
                   = chargingTable t1 t2 t3 t4).
    { unfold selectEvents, chargingTable. cbn [filter time event].
      replace (daysBefore now dayCount <? t1) with true by (symmetry; apply Z.ltb_lt; lia).
      replace (daysBefore now dayCount <? t2) with true by (symmetry; apply Z.ltb_lt; lia).
      replace (daysBefore now dayCount <? t3) with true by (symmetry; apply Z.ltb_lt; lia).
      replace (daysBefore now dayCount <? t4) with true by (symmetry; apply Z.ltb_lt; lia).
      cbn [andb negb String.eqb Ascii.eqb Bool.eqb orderByTimeAsc insertByTime time].
      replace (t3 <? t4) with true by (symmetry; apply Z.ltb_lt; lia).
      cbn [insertByTime time].
      replace (t2 <? t3) with true by (symmetry; apply Z.ltb_lt; lia).
      cbn [insertByTime time].
      replace (t1 <? t2) with true by (symmetry; apply Z.ltb_lt; lia).
      reflexivity. }
    rewrite Hsel. reflexivity.
Qed.

(** ** The average power *)

Lemma selectDischarging_In (tb : Table) (startTime : Z) (r : Row) :
  In r (selectDischarging tb startTime) ->
  In r tb /\ startTime < time r /\ charging r = false.
Proof.
  unfold selectDischarging, limit. intro H. apply firstn_In in H.
  apply orderByTimeAsc_In, filter_In in H. destruct H as [Hin Hf].
  apply andb_true_iff in Hf. destruct Hf as [H1 H2].
  apply Z.ltb_lt in H1. apply eqb_prop in H2. auto.
Qed.

Lemma selectDischarging_sorted (tb : Table) (startTime : Z) :
  NoDup (times tb) -> StronglySorted Z.lt (times (selectDischarging tb startTime)).
Proof.
  intro Hkey. unfold selectDischarging, limit. apply sorted_strict.
  - apply sorted_firstn, orderByTimeAsc_sorted.
  - apply NoDup_times_firstn.
    apply (NoDup_times_perm _ _ (Permutation_sym (orderByTimeAsc_perm _))).
    now apply NoDup_times_filter.
Qed.

Lemma selectDischarging_all_charging (tb : Table) (startTime : Z) :
  (forall r, In r tb -> charging r = true) -> selectDischarging tb startTime = [].
Proof.
  intro H. unfold selectDischarging. rewrite filter_none; [reflexivity|].
  intros x Hx. rewrite (H x Hx). apply andb_false_r.
Qed.

(** The loop of [getAveragePower] adds up the counted pairs. *)
Lemma powerLoop_sums (P : Platform) (rest : Table) :
  RoundTrip P -> forall prev acc,
  previousEnergy acc = energy prev ->
  previousTime acc = dateOfColumn P (time prev) ->
  previousEvent acc = event prev ->
  let pairs := filter countedPair (combine (prev :: rest) rest) in
  sum (fold_left (powerStep P) rest acc)
  = sum acc + sumZ (map (fun pc => energy (fst pc) - energy (snd pc)) pairs)
  /\ duration (fold_left (powerStep P) rest acc)
     = duration acc + sumZ (map (fun pc => time (snd pc) - time (fst pc)) pairs).
Proof.
  intro Hrt. induction rest as [|r rest IH]; intros prev acc He Ht Hv pairs.
  - subst pairs. simpl. split; lia.
  - subst pairs.
    change (combine (prev :: r :: rest) (r :: rest))
      with ((prev, r) :: combine (r :: rest) rest).
    cbn [fold_left]. unfold powerStep at 2 4. rewrite He, Hv, Ht.
    cbn [filter].
    change ((energy r <=? energy prev) && negb (event prev =? "Stop")%string)
      with (countedPair (prev, r)).
    destruct (countedPair (prev, r)).
    + destruct (IH r (mkPowerAcc (sum acc + (energy prev - energy r))
                        (duration acc + (dateOfColumn P (time r)
                                         - dateOfColumn P (time prev)))
                        (energy r) (dateOfColumn P (time r)) (event r))
                  eq_refl eq_refl eq_refl) as [H1 H2].
      rewrite H1, H2.
      set (tp := filter countedPair (combine (r :: rest) rest)).
      cbn [sum duration map fst snd]. unfold sumZ. cbn [fold_right].
      pose proof (Hrt (time r)). pose proof (Hrt (time prev)).
      split; lia.
    + destruct (IH r (mkPowerAcc (sum acc) (duration acc) (energy r)
                        (dateOfColumn P (time r)) (event r))
                  eq_refl eq_refl eq_refl) as [H1 H2].
      rewrite H1, H2. split; reflexivity.
Qed.

Lemma pairs_ascending (rows : Table) :
  StronglySorted Z.lt (times rows) ->
  forall pc, In pc (consecutivePairs rows) -> time (fst pc) < time (snd pc).
Proof.
  unfold consecutivePairs.
  induction rows as [|a rows IH]; simpl; intros Hs pc Hin; [contradiction|].
  inversion Hs as [|? ? Hs' Hall]; subst.
  destruct rows as [|b rows]; simpl in *; [contradiction|].
  destruct Hin as [Hin|Hin].
  - subst pc. simpl. inversion Hall; subst. assumption.
  - now apply IH.
Qed.

Lemma sumZ_cons (x : Z) (l : list Z) : sumZ (x :: l) = x + sumZ l.
Proof. reflexivity. Qed.

Lemma elapsed_nonneg (pairs : list (Row * Row)) :
  (forall pc, In pc pairs -> time (fst pc) < time (snd pc)) ->
  0 <= sumZ (map (fun pc => time (snd pc) - time (fst pc))
                 (filter countedPair pairs)).
Proof.
  induction pairs as [|pc pairs IH]; intro Hasc; [simpl; lia|].
  assert (Hrest : forall x, In x pairs -> time (fst x) < time (snd x))
    by (intros x Hx; apply Hasc; now right).
  specialize (IH Hrest). cbn [filter].
  destruct (countedPair pc); [|exact IH].
  cbn [map]. rewrite sumZ_cons.
  pose proof (Hasc pc (or_introl eq_refl)). lia.
Qed.

(** A positive sum has a counted pair behind it, and a counted pair takes
    time: the division of [getAveragePower] is by a positive duration. *)
Lemma counted_sums_positive (pairs : list (Row * Row)) :
  (forall pc, In pc pairs -> time (fst pc) < time (snd pc)) ->
  0 < sumZ (map (fun pc => energy (fst pc) - energy (snd pc))
                (filter countedPair pairs)) ->
  0 < sumZ (map (fun pc => time (snd pc) - time (fst pc))
                (filter countedPair pairs)).
Proof.
  induction pairs as [|pc pairs IH]; intros Hasc Hpos; [simpl in Hpos; lia|].
  assert (Hrest : forall x, In x pairs -> time (fst x) < time (snd x))
    by (intros x Hx; apply Hasc; now right).
  cbn [filter] in *. destruct (countedPair pc); [|now apply IH].
  cbn [map]. rewrite sumZ_cons.
  pose proof (Hasc pc (or_introl eq_refl)).
  pose proof (elapsed_nonneg pairs Hrest). lia.
Qed.

Lemma getAveragePower_spec (P : Platform) (tb : Table) (dayCount now : Z) :
  RoundTrip P -> NoDup (times tb) ->
  getAveragePower P tb dayCount now
  = Finite (specAveragePower (selectDischarging tb (daysBefore now dayCount))).
Proof.
  intros Hrt Hkey. unfold getAveragePower, specAveragePower.
  pose proof (selectDischarging_sorted tb (daysBefore now dayCount) Hkey) as Hs.
  destruct (selectDischarging tb (daysBefore now dayCount)) as [|item0 [|item1 rest]];
    [reflexivity|reflexivity|].
  destruct (powerLoop_sums P (item1 :: rest) Hrt item0
              (mkPowerAcc 0 0 (energy item0) (dateOfColumn P (time item0))
                          (event item0)) eq_refl eq_refl eq_refl) as [H1 H2].
  rewrite H1, H2. cbn [sum duration]. rewrite !Z.add_0_l.
  change (combine (item0 :: item1 :: rest) (item1 :: rest))
    with (consecutivePairs (item0 :: item1 :: rest)).
  destruct (Z.ltb_spec 0 (sumZ (map (fun pc => energy (fst pc) - energy (snd pc))
              (filter countedPair (consecutivePairs (item0 :: item1 :: rest))))))
    as [Hpos|Hle]; [|reflexivity].
  unfold roundedPower.
  pose proof (counted_sums_positive _ (pairs_ascending _ Hs) Hpos) as Hd.
  destruct (Z.eqb_spec (sumZ (map (fun pc => time (snd pc) - time (fst pc))
              (filter countedPair (consecutivePairs (item0 :: item1 :: rest))))) 0)
    as [E|E]; [lia|reflexivity].
Qed.

(** C8, the claim as stated fails: the query bounds the time from below
    only.  Of the rows of [dischargeTable] only the first lies between
    [now - dayCount] and [now = 0], which would give 0; the rows later than
    [now] are read as well and the result is 12. *)
Lemma average_power_counterexample :
  ~ (forall r, In r (selectDischarging dischargeTable (daysBefore 0 1)) ->
               daysBefore 0 1 <= time r <= 0)
  /\ getAveragePower utc dischargeTable 1 0 = Finite 12.
Proof.
  split; [|reflexivity]. intro H.
  specialize (H (mkRow 3600000 90 false true "")).
  assert (3600000 <= 0); [|lia]. apply H. vm_compute. tauto.
Qed.

(** C8, amended.  The average power.  The rows read are rows of the table
    that are not charging and later than [now - dayCount]; the query sets
    no upper bound on the time.  There are at most 1000 of them and they
    are in ascending order of time.  Over their consecutive pairs the
    energy drop and the elapsed time are added up exactly for the pairs
    with [cur.energy <= prev.energy] whose [prev.event] is not "Stop".
    When the sum is positive so is the duration, and the result is
    [round(sum * 3600 / duration_in_seconds)]: the integer [p] with
    [p <= quotient + 1/2 < p + 1], where the quotient is
    [(sum * 3600) / (duration / 1000)] as JavaScript computes it on
    numbers.  The result is 0 when the sum is 0, 0 with fewer than two
    rows, and 0 for a table whose rows are all charging. *)
Theorem average_power (P : Platform) (tb : Table) (dayCount now : Z)
    (Hrt : RoundTrip P)
    (Hkey : NoDup (times tb)) :
  let rows := selectDischarging tb (daysBefore now dayCount) in
  let pairs := filter countedPair (consecutivePairs rows) in
  let sum := sumZ (map (fun pc => energy (fst pc) - energy (snd pc)) pairs) in
  let durationMs := sumZ (map (fun pc => time (snd pc) - time (fst pc)) pairs) in
  let quotient := fdiv (fmul (inject_Z sum) 3600) (fdiv (inject_Z durationMs) 1000) in
  (forall r, In r rows ->
     In r tb /\ charging r = false /\ daysBefore now dayCount < time r)
  /\ (List.length rows <= 1000)%nat
  /\ StronglySorted Z.lt (times rows)
  /\ getAveragePower P tb dayCount now = Finite (specAveragePower rows)
  /\ (0 < sum ->
      0 < durationMs
      /\ exists p, getAveragePower P tb dayCount now = Finite p
                   /\ (inject_Z p <= quotient + (1 # 2))%Q
                   /\ (quotient + (1 # 2) < inject_Z (p + 1))%Q)
  /\ (sum <= 0 -> getAveragePower P tb dayCount now = Finite 0)
  /\ ((List.length rows < 2)%nat -> getAveragePower P tb dayCount now = Finite 0)
  /\ ((forall r, In r tb -> charging r = true) ->
      getAveragePower P tb dayCount now = Finite 0).
Proof.
  intros rows pairs sum durationMs quotient.
  pose proof (getAveragePower_spec P tb dayCount now Hrt Hkey) as Hspec.
  fold rows in Hspec.
  assert (Hvalue : specAveragePower rows
                   = if 0 <? sum then mathRound quotient else 0) by reflexivity.
  split; [|split; [|split; [|split; [|split; [|split; [|split]]]]]].
  - intros r Hr. apply selectDischarging_In in Hr. tauto.
  - unfold rows, selectDischarging, limit. apply firstn_le_length.
  - now apply selectDischarging_sorted.
  - exact Hspec.
  - intro Hpos. split.
    + apply counted_sums_positive; [|exact Hpos].
      apply pairs_ascending. now apply selectDischarging_sorted.
    + exists (mathRound quotient). rewrite Hspec, Hvalue.
      apply Z.ltb_lt in Hpos. rewrite Hpos. split; [reflexivity|].
      unfold mathRound. split; [apply Qfloor_le|apply Qlt_floor].
  - intro Hle. rewrite Hspec, Hvalue.
    apply Z.ltb_ge in Hle. now rewrite Hle.
  - intro Hlen. unfold getAveragePower. fold rows.
    destruct rows as [|a [|b l]]; [reflexivity|reflexivity|simpl in Hlen; lia].
  - intro Hall. unfold getAveragePower.
    now rewrite selectDischarging_all_charging.
Qed.

(** ** Instances *)

Ltac key_tac := repeat (constructor; [cbv; intuition discriminate|]); constructor.


Lemma cet_roundtrip : RoundTrip cet.
Proof. intro t. unfold cet. cbn [dateOfColumn timezoneOffset]. lia. Qed.

Lemma utc_roundtrip : RoundTrip utc.
Proof. intro t. unfold utc. cbn [dateOfColumn timezoneOffset]. lia. Qed.



Lemma event_timeline_witness :
  getLatestEvents cet (chargingTable 1000 2000 3000 4000) 1 5000
  = [ mkEventEntry 1000 10 true "Charging"
    ; mkEventEntry 3000 30 true "Full"
    ; mkEventEntry 4000 25 true "Charging" ].
Proof.
  destruct (event_timeline cet (chargingTable 1000 2000 3000 4000) 1 5000)
    as [_ [_ [_ [H _]]]].
  - exact cet_roundtrip.
  - unfold chargingTable. key_tac.
  - rewrite H. reflexivity.
Defined.

Lemma average_power_witness :
  getAveragePower cet roundingTable 1 5000 = Finite 14062
  /\ (inject_Z 14062
      <= fdiv (fmul (inject_Z 17) 3600) (fdiv (inject_Z 4352) 1000) + (1 # 2)
      < inject_Z 14063)%Q.
Proof.
  destruct (average_power cet roundingTable 1 5000) as [_ [_ [_ [H _]]]].
  - exact cet_roundtrip.
  - unfold roundingTable. key_tac.
  - rewrite H. split; [reflexivity|]. split; vm_compute; congruence.
Defined.

(** * Further properties of the store *)

(** ** What one call does to the table, with SQLite *)

Lemma addEntry_sqlite_dup (t e : Z) (c a : bool) (ev : string) (st : State) :
  In t (times (table st)) -> addEntry sqlite t e c a ev st = Thrown st.
Proof.
  intro H.
  destruct (addEntry_cases sqlite t e c a ev st) as [[_ Hr]|[tb [n [Hx _]]]];
    [exact Hr|].
  simpl in Hx. unfold sqliteInsert in Hx. cbn [time] in Hx.
  apply hasTime_true_iff in H. rewrite H in Hx. discriminate.
Qed.

Lemma createNewEntry_sqlite_dup (t e : Z) (c a : bool) (ev : string) (st : State) :
  In t (times (table st)) -> createNewEntry sqlite t e c a ev st = Thrown st.
Proof.
  intro H. unfold createNewEntry, bind at 1.
  now rewrite (addEntry_sqlite_dup t e c a ev st H).
Qed.

Lemma retime_payload (new old : Z) (tb : Table) :
  map payload (retime new old tb) = map payload tb.
Proof.
  unfold retime. rewrite map_map. apply map_ext. intro r.
  destruct (time r =? old); reflexivity.
Qed.

Lemma sqliteUpdateTime_done (tb tb' : Table) (new old : Z) (k : nat) :
  sqliteUpdateTime tb new old = Done tb' k ->
  tb' = retime new old tb /\ (k = 0%nat -> tb' = tb).
Proof.
  unfold sqliteUpdateTime.
  destruct (filter (fun r => time r =? old) tb) as [|h [|h' hit]] eqn:Hf.
  - intro H. injection H as <- <-. split; [|reflexivity].
    symmetry. apply retime_absent. intro Hin. unfold times in Hin.
    apply in_map_iff in Hin. destruct Hin as [r [Hr Hin]].
    assert (In r (filter (fun r => time r =? old) tb)) as Hc
      by (apply filter_In; split; [assumption|now apply Z.eqb_eq]).
    rewrite Hf in Hc. contradiction.
  - destruct (hasTime new _); [discriminate|].
    intro H. injection H as <- <-. split; [reflexivity|discriminate].
  - discriminate.
Qed.

Lemma sqlite_plain_way (st : State) (e : Z) (c a : bool) (ev : string) (now : Z) :
  wayOf st e c a ev now = PlainWay ->
  addOrUpdateEntry sqlite e c a ev now st = createNewEntry sqlite now e c a ev st.
Proof.
  unfold wayOf, addOrUpdateEntry, gapDetected.
  destruct (lastSample st) as [l|]; [|reflexivity].
  destruct (_ && _ && _); [discriminate|].
  destruct (sameAsLast l e c a ev); [discriminate|reflexivity].
Qed.

Lemma sqlite_merge_way (st : State) (e : Z) (c a : bool) (ev : string) (now : Z)
    (l : Row) :
  wayOf st e c a ev now = MergeWay l ->
  lastSample st = Some l
  /\ gapDetected st l a ev now = false
  /\ sameAsLast l e c a ev = true
  /\ match sqliteUpdateTime (table st) now (time l) with
     | SqlError => addOrUpdateEntry sqlite e c a ev now st = Thrown st
     | Done tb' k =>
         addOrUpdateEntry sqlite e c a ev now st
         = Return RetZero
             (mkState tb' (Some (setTime now l)) (timeoutIntervalInSeconds st)
                (console st ++ (if Nat.eqb k 0
                                then ["Failed to update previous energy_log entry."]
                                else [])))
     end.
Proof.
  unfold wayOf, addOrUpdateEntry. destruct (lastSample st) as [l0|]; [|discriminate].
  fold (gapDetected st l0 a ev now).
  destruct (gapDetected st l0 a ev now) eqn:Hg; [discriminate|].
  destruct (sameAsLast l0 e c a ev) eqn:Hs; [|discriminate].
  intro H. injection H as <-. split; [reflexivity|]. split; [exact Hg|].
  split; [exact Hs|].
  unfold bind, transaction, setLast, ret. simpl execUpdateTime.
  destruct (sqliteUpdateTime (table st) now (time l0)) as [tb' k|]; [|reflexivity].
  destruct (Nat.eqb k 0); reflexivity.
Qed.

Lemma sqlite_gap_way (st : State) (e : Z) (c a : bool) (ev : string) (now : Z)
    (l : Row) :
  wayOf st e c a ev now = GapWay l ->
  lastSample st = Some l
  /\ gapDetected st l a ev now = true
  /\ (In (time (missedRow st l)) (times (table st)) ->
      addOrUpdateEntry sqlite e c a ev now st = Thrown st)
  /\ (~ In (time (missedRow st l)) (times (table st)) ->
      addOrUpdateEntry sqlite e c a ev now st
      = createNewEntry sqlite now e c a ev
          (mkState (table st ++ [missedRow st l]) (lastSample st)
                   (timeoutIntervalInSeconds st) (console st))).
Proof.
  unfold wayOf. destruct (lastSample st) as [l0|] eqn:Hl; [|discriminate].
  destruct (gapDetected st l0 a ev now) eqn:Hg;
    [|destruct (sameAsLast l0 e c a ev); discriminate].
  intro H. injection H as <-. split; [reflexivity|]. split; [exact Hg|].
  assert (Hgo : addOrUpdateEntry sqlite e c a ev now st
                = (ok <- addEntry sqlite (time l0 + 1000 * timeoutIntervalInSeconds st)
                           (energy l0) (charging l0) false "" ;;
                   if negb ok then
                     consoleLog "Failed to add missing energy_log entry." ;;;
                     ret RetZero
                   else createNewEntry sqlite now e c a ev) st).
  { unfold addOrUpdateEntry. rewrite Hl. unfold gapDetected in Hg. now rewrite Hg. }
  rewrite Hgo. split; intro Hm; unfold bind at 1.
  - now rewrite (addEntry_sqlite_dup _ _ _ _ _ st Hm).
  - rewrite (addEntry_sqlite_fresh _ _ _ _ _ st Hm), Hl. reflexivity.
Qed.

Lemma prefixOf_refl {A : Type} (a : list A) : prefixOf a a.
Proof. exists []. now rewrite app_nil_r. Qed.

Lemma prefixOf_trans {A : Type} (a b c : list A) :
  prefixOf a b -> prefixOf b c -> prefixOf a c.
Proof.
  intros [x ->] [y ->]. exists (x ++ y). now rewrite app_assoc.
Qed.

Lemma prefixOf_app {A : Type} (a b : list A) : prefixOf a (a ++ b).
Proof. now exists b. Qed.

Lemma createNewEntry_sqlite_payload (t e : Z) (c a : bool) (ev : string) (st : State) :
  prefixOf (map payload (table st))
           (map payload (table (finalState (createNewEntry sqlite t e c a ev st)))).
Proof.
  destruct (in_dec Z.eq_dec t (times (table st))) as [Hin|Hout].
  - rewrite (createNewEntry_sqlite_dup _ _ _ _ _ st Hin). apply prefixOf_refl.
  - rewrite (createNewEntry_sqlite_fresh _ _ _ _ _ st Hout). cbn [finalState table].
    rewrite map_app. apply prefixOf_app.
Qed.

Lemma step_sqlite_payload (st : State) (c : Call) :
  prefixOf (map payload (table st)) (map payload (table (step sqlite st c))).
Proof.
  destruct c as [e ch a ev now]. unfold step. cbn [cenergy ccharging cactive cevent cnow].
  destruct (wayOf st e ch a ev now) as [l|l|] eqn:Hw.
  - destruct (sqlite_gap_way st e ch a ev now l Hw) as [_ [_ [Hdup Hfresh]]].
    destruct (in_dec Z.eq_dec (time (missedRow st l)) (times (table st))) as [Hin|Hout].
    + rewrite (Hdup Hin). apply prefixOf_refl.
    + rewrite (Hfresh Hout).
      eapply prefixOf_trans; [|apply createNewEntry_sqlite_payload].
      cbn [table]. rewrite map_app. apply prefixOf_app.
  - destruct (sqlite_merge_way st e ch a ev now l Hw) as [_ [_ [_ Hm]]].
    destruct (sqliteUpdateTime (table st) now (time l)) as [tb' k|] eqn:Hu;
      rewrite Hm; cbn [finalState table]; [|apply prefixOf_refl].
    apply sqliteUpdateTime_done in Hu. destruct Hu as [-> _].
    rewrite retime_payload. apply prefixOf_refl.
  - rewrite (sqlite_plain_way st e ch a ev now Hw).
    apply createNewEntry_sqlite_payload.
Qed.

(** X1. The writer never deletes a row and never changes a stored energy,
    charging, active or event value: after any sequence of calls of
    [addOrUpdateEntry], raising or not, the values of the rows that were
    there are the beginning of the values of the rows that are there, in
    the same order.  Only times change, and only rows are added. *)
Theorem writer_keeps_stored_values (calls : list Call) (st : State) :
  prefixOf (map payload (table st)) (map payload (table (run sqlite st calls))).
Proof.
  revert st. induction calls as [|c calls IH]; intro st; [apply prefixOf_refl|].
  simpl. eapply prefixOf_trans; [apply step_sqlite_payload|apply IH].
Qed.

(** X2. The value of a call tells how the number of stored rows moved: a
    call that returns the number 0 leaves [getStoredEventCount] as it was,
    and a call that returns a [Date] returns [now] and has added one row,
    or two when it detected a gap; the last row is then the new sample. *)
Theorem returned_value_counts_rows (st st' : State) (e : Z) (c a : bool)
    (ev : string) (now : Z) (v : RetVal)
    (Hcall : addOrUpdateEntry sqlite e c a ev now st = Return v st') :
  match v with
  | RetZero => getStoredEventCount (table st') = getStoredEventCount (table st)
  | RetTime t =>
      t = now
      /\ getStoredEventCount (table st')
         = (getStoredEventCount (table st)
            + match wayOf st e c a ev now with GapWay _ => 2 | _ => 1 end)%nat
      /\ exists before, table st' = before ++ [mkRow now e c a ev]
  end.
Proof.
  unfold getStoredEventCount.
  assert (Hnew : forall s v' s',
    createNewEntry sqlite now e c a ev s = Return v' s' ->
    v' = RetTime now /\ table s' = table s ++ [mkRow now e c a ev]).
  { intros s v' s' H.
    destruct (in_dec Z.eq_dec now (times (table s))) as [Hin|Hout].
    - rewrite (createNewEntry_sqlite_dup _ _ _ _ _ s Hin) in H. discriminate.
    - rewrite (createNewEntry_sqlite_fresh _ _ _ _ _ s Hout) in H.
      injection H as <- <-. split; reflexivity. }
  destruct (wayOf st e c a ev now) as [l|l|] eqn:Hw.
  - destruct (sqlite_gap_way st e c a ev now l Hw) as [_ [_ [Hdup Hfresh]]].
    destruct (in_dec Z.eq_dec (time (missedRow st l)) (times (table st))) as [Hin|Hout].
    + rewrite (Hdup Hin) in Hcall. discriminate.
    + rewrite (Hfresh Hout) in Hcall. apply Hnew in Hcall.
      destruct Hcall as [-> Ht]. cbn [table] in Ht. rewrite Ht.
      split; [reflexivity|]. split; [rewrite !length_app; simpl; lia|].
      eexists. reflexivity.
  - destruct (sqlite_merge_way st e c a ev now l Hw) as [_ [_ [_ Hm]]].
    destruct (sqliteUpdateTime (table st) now (time l)) as [tb' k|] eqn:Hu;
      rewrite Hm in Hcall; [|discriminate].
    injection Hcall as <- <-. cbn [table].
    apply sqliteUpdateTime_done in Hu. destruct Hu as [-> _]. apply retime_length.
  - rewrite (sqlite_plain_way st e c a ev now Hw) in Hcall. apply Hnew in Hcall.
    destruct Hcall as [-> Ht]. rewrite Ht.
    split; [reflexivity|]. split; [rewrite length_app; simpl; lia|].
    eexists. reflexivity.
Qed.

Lemma returned_value_counts_rows_witness :
  getStoredEventCount
    [mkRow 5000 50 false true ""; mkRow 35000 50 false false "";
     mkRow 100000 40 true true "Charging"]
  = (getStoredEventCount [mkRow 5000 50 false true ""] + 2)%nat.
Proof.
  exact (proj1 (proj2 (returned_value_counts_rows
    (mkState [mkRow 5000 50 false true ""] (Some (mkRow 5000 50 false true "")) 30 [])
    _ 40 true true "Charging" 100000 (RetTime 100000) eq_refl))).
Defined.

(** ** A cache that has lost its row *)

Lemma run_app_step (E : Engine) (st : State) (c : Call) (calls : list Call) :
  run E st (c :: calls) = run E (step E st c) calls.
Proof. reflexivity. Qed.

Lemma last_cons_default (u : Z) (l : list Z) (d d' : Z) :
  last (u :: l) d = last (u :: l) d'.
Proof.
  revert u. induction l as [|x l IH]; intro u; [reflexivity|].
  change (last (x :: l) d = last (x :: l) d'). apply IH.
Qed.

(** X3. Samples dropped after [reset] or [cleanup].  The cache holds an
    inactive sample whose row is no longer in the table, as after [reset]
    or after a [cleanup] that deleted it.  Then repeating that sample, at
    whatever instants that are not times of stored rows, never stores
    anything: the table stays as it was, each call only logs that the
    update failed, and the cache moves on to the last instant. *)
Theorem stale_cache_drops_samples (instants : list Z) (st : State) (l : Row)
    (Hlast : lastSample st = Some l)
    (Hidle : active l = false)
    (Hgone : ~ In (time l) (times (table st)))
    (Hnew : forall t, In t instants -> ~ In t (times (table st))) :
  let st' := run sqlite st (repeatedCalls l instants) in
  table st' = table st
  /\ console st'
     = console st
       ++ repeat "Failed to update previous energy_log entry." (List.length instants)
  /\ lastSample st' = Some (setTime (last instants (time l)) l).
Proof.
  revert st l Hlast Hidle Hgone Hnew.
  induction instants as [|t instants IH]; intros st l Hlast Hidle Hgone Hnew.
  - cbn [run fold_left repeatedCalls map List.length repeat last]. cbn zeta.
    split; [reflexivity|]. split; [now rewrite app_nil_r|].
    rewrite Hlast. now destruct l.
  - assert (Hstep : step sqlite st (mkCall (energy l) (charging l) (active l) (event l) t)
                    = mkState (table st) (Some (setTime t l))
                        (timeoutIntervalInSeconds st)
                        (console st ++ ["Failed to update previous energy_log entry."])).
    { unfold step. cbn [cenergy ccharging cactive cevent cnow].
      rewrite (merge_branch_miss st l t Hlast); [reflexivity| |assumption].
      unfold gapDetected. now rewrite Hidle. }
    change (repeatedCalls l (t :: instants))
      with (mkCall (energy l) (charging l) (active l) (event l) t
            :: repeatedCalls (setTime t l) instants).
    rewrite run_app_step, Hstep.
    destruct (IH (mkState (table st) (Some (setTime t l))
                    (timeoutIntervalInSeconds st)
                    (console st ++ ["Failed to update previous energy_log entry."]))
                 (setTime t l)) as [H1 [H2 H3]].
    + reflexivity.
    + exact Hidle.
    + cbn [table setTime time]. apply Hnew. now left.
    + intros u Hu. cbn [table]. apply Hnew. now right.
    + cbn zeta. rewrite H1, H2, H3. cbn [table console setTime time energy charging
        active event List.length repeat].
      split; [reflexivity|]. split; [now rewrite <- app_assoc|].
      f_equal. destruct instants as [|u instants]; [reflexivity|].
      change (last (t :: u :: instants) (time l)) with (last (u :: instants) (time l)).
      rewrite (last_cons_default u instants t (time l)). reflexivity.
Qed.

Lemma stale_cache_drops_samples_witness :
  table (run sqlite staleState
           (repeatedCalls (mkRow 1000 50 false false "") [2000; 3000; 4000]))
  = [].
Proof.
  refine (proj1 (stale_cache_drops_samples [2000; 3000; 4000] staleState
                   (mkRow 1000 50 false false "") eq_refl eq_refl _ _)).
  - cbv. tauto.
  - intros t _. cbv. tauto.
Defined.

(** ** The cache and the last row *)

Lemma sorted_app_last_fresh (before : Table) (l : Row) :
  StronglySorted Z.lt (times (before ++ [l])) -> ~ In (time l) (times before).
Proof.
  intros Hs Hin. apply sorted_lt_NoDup in Hs. rewrite times_app in Hs.
  apply NoDup_remove_2 in Hs. apply Hs. rewrite app_nil_r. exact Hin.
Qed.

Lemma step_mirrored (st : State) (c : Call) :
  0 < timeoutIntervalInSeconds st ->
  Ordered st -> Mirrored st ->
  match lastSample st with Some l => time l < cnow c | None => True end ->
  Mirrored (step sqlite st c).
Proof.
  intros HT Hord Hmir Hnow.
  destruct (step_ordered st c HT Hord Hnow) as [v [st' [Hr _]]].
  unfold step. destruct c as [e ch a ev now].
  cbn [cenergy ccharging cactive cevent cnow] in *.
  assert (Hnew : forall s v' s',
    createNewEntry sqlite now e ch a ev s = Return v' s' -> Mirrored s').
  { intros s v' s' H.
    destruct (in_dec Z.eq_dec now (times (table s))) as [Hin|Hout].
    - rewrite (createNewEntry_sqlite_dup _ _ _ _ _ s Hin) in H. discriminate.
    - rewrite (createNewEntry_sqlite_fresh _ _ _ _ _ s Hout) in H.
      injection H as <- <-. unfold Mirrored. cbn [lastSample table].
      eexists. reflexivity. }
  destruct (wayOf st e ch a ev now) as [l|l|] eqn:Hw.
  - destruct (sqlite_gap_way st e ch a ev now l Hw) as [_ [_ [Hdup Hfresh]]].
    destruct (in_dec Z.eq_dec (time (missedRow st l)) (times (table st))) as [Hin|Hout].
    + rewrite (Hdup Hin) in Hr. discriminate.
    + rewrite (Hfresh Hout) in Hr |- *. rewrite Hr. exact (Hnew _ _ _ Hr).
  - destruct (sqlite_merge_way st e ch a ev now l Hw) as [Hl [Hg [Hs Hm]]].
    unfold Mirrored in Hmir. rewrite Hl in Hmir, Hnow. destruct Hmir as [before Hb].
    destruct Hord as [Hsorted Hle]. rewrite Hb in Hsorted.
    pose proof (sorted_app_last_fresh before l Hsorted) as Hfresh.
    rewrite (sqliteUpdateTime_hit (table st) now (time l)) in Hm.
    + rewrite Hm. unfold Mirrored. cbn [finalState lastSample table].
      rewrite Hb, (retime_app_last now l before Hfresh). eexists. reflexivity.
    + rewrite Hb. now apply sorted_lt_NoDup.
    + rewrite Hb, times_app. apply in_app_iff. right. now left.
    + rewrite Hl in Hle. intros r Hr' _ Heq. rewrite Forall_forall in Hle.
      assert (time r <= time l) by (apply Hle; unfold times; now apply in_map). lia.
  - rewrite (sqlite_plain_way st e ch a ev now Hw) in Hr |- *.
    rewrite Hr. exact (Hnew _ _ _ Hr).
Qed.

Lemma run_mirrored (calls : list Call) :
  forall st,
    0 < timeoutIntervalInSeconds st ->
    Ordered st -> Mirrored st ->
    match lastSample st with
    | Some l => increasingFrom (time l) (map cnow calls) = true
    | None => strictlyIncreasing (map cnow calls) = true
    end ->
    Mirrored (run sqlite st calls).
Proof.
  induction calls as [|c calls IH]; intros st HT Hord Hmir Hinc; [exact Hmir|].
  assert (Hnow : match lastSample st with
                 | Some l => time l < cnow c | None => True end).
  { destruct (lastSample st); [|exact I]. simpl in Hinc.
    apply andb_true_iff in Hinc. now apply Z.ltb_lt. }
  assert (Hrest : increasingFrom (cnow c) (map cnow calls) = true).
  { destruct (lastSample st); simpl in Hinc; [|assumption].
    now apply andb_true_iff in Hinc. }
  destruct (step_ordered st c HT Hord Hnow) as [v [st' [Hr [Ho [Ht [l' [Hl' Htl]]]]]]].
  pose proof (step_mirrored st c HT Hord Hmir Hnow) as Hm.
  rewrite run_app_step. unfold step in *. rewrite Hr in *. cbn [finalState] in *.
  apply IH; [now rewrite Ht|assumption|assumption|now rewrite Hl', Htl].
Qed.

(** X4. The cache mirrors the table.  On a fresh installation with a
    positive timeout, after any calls at strictly increasing instants the
    five cached values are exactly the last row of the table, time
    included, and the cache is undefined only while the table is empty. *)
Theorem cache_mirrors_last_row (timeout : Z) (calls : list Call)
    (HT : 0 < timeout)
    (Hinc : strictlyIncreasing (map cnow calls) = true) :
  match lastSample (run sqlite (freshState timeout) calls) with
  | Some l =>
      exists before, table (run sqlite (freshState timeout) calls) = before ++ [l]
  | None => table (run sqlite (freshState timeout) calls) = []
  end.
Proof.
  apply (run_mirrored calls (freshState timeout)); try assumption.
  - split; [constructor|reflexivity].
  - reflexivity.
Qed.

Lemma cache_mirrors_last_row_witness :
  exists before,
    table (run sqlite (freshState 30) sampleCalls)
    = before ++ [mkRow 100000 48 false true ""].
Proof.
  exact (cache_mirrors_last_row 30 sampleCalls eq_refl eq_refl).
Defined.

(** ** Samples, [cleanup] and [reset] together *)

Lemma filter_times_Forall (f : Row -> bool) (P : Z -> Prop) (tb : Table) :
  Forall P (times tb) -> Forall P (times (filter f tb)).
Proof.
  induction tb as [|x tb IH]; simpl; intro H; [constructor|].
  inversion H; subst. destruct (f x); simpl; [constructor|]; auto.
Qed.

Lemma filter_times_sorted (f : Row -> bool) (tb : Table) :
  StronglySorted Z.lt (times tb) -> StronglySorted Z.lt (times (filter f tb)).
Proof.
  induction tb as [|x tb IH]; simpl; intro H; [constructor|].
  inversion H; subst. destruct (f x); simpl; [|now apply IH].
  constructor; [now apply IH|now apply filter_times_Forall].
Qed.

Lemma cleanup_ordered (maximumDays now : Z) (st : State) :
  Ordered st -> Ordered (cleanup maximumDays now st).
Proof.
  intros [Hs Hc]. unfold Ordered, cleanup, sqlDeleteBefore. cbn [table lastSample withTable].
  split; [now apply filter_times_sorted|].
  destruct (lastSample st); [now apply filter_times_Forall|now rewrite Hc].
Qed.

Lemma reset_ordered (st : State) : Ordered st -> Ordered (reset st).
Proof.
  intros _. unfold Ordered, reset. cbn [table lastSample withTable].
  split; [constructor|]. destruct (lastSample st); [constructor|reflexivity].
Qed.

Lemma runOps_ordered (ops : list Op) :
  forall st,
    0 < timeoutIntervalInSeconds st ->
    Ordered st ->
    match lastSample st with
    | Some l => increasingFrom (time l) (addInstants ops) = true
    | None => strictlyIncreasing (addInstants ops) = true
    end ->
    opsReturn sqlite st ops /\ Ordered (runOps sqlite st ops).
Proof.
  induction ops as [|op ops IH]; intros st HT Hord Hinc; [split; [exact I|exact Hord]|].
  destruct op as [c|maximumDays now|].
  - assert (Hnow : match lastSample st with
                   | Some l => time l < cnow c | None => True end).
    { destruct (lastSample st); [|exact I]. simpl in Hinc.
      apply andb_true_iff in Hinc. now apply Z.ltb_lt. }
    assert (Hrest : increasingFrom (cnow c) (addInstants ops) = true).
    { destruct (lastSample st); simpl in Hinc; [|assumption].
      now apply andb_true_iff in Hinc. }
    destruct (step_ordered st c HT Hord Hnow) as [v [st' [Hr [Ho [Ht [l' [Hl' Htl]]]]]]].
    destruct (IH st') as [Hall Hfin];
      [now rewrite Ht|assumption|now rewrite Hl', Htl|].
    split.
    + simpl. exists v, st'. auto.
    + simpl. unfold step. now rewrite Hr.
  - apply (IH (cleanup maximumDays now st)); [exact HT|now apply cleanup_ordered|exact Hinc].
  - apply (IH (reset st)); [exact HT|now apply reset_ordered|exact Hinc].
Qed.

(** X5. Samples, [cleanup] and [reset] in any order.  On a fresh
    installation with a positive timeout, whatever [cleanup] and [reset]
    calls come between samples taken at strictly increasing instants, no
    sample raises and the rows stay in strictly ascending order of time,
    so that no two rows share a time. *)
Theorem store_operations_compose (timeout : Z) (ops : list Op)
    (HT : 0 < timeout)
    (Hinc : strictlyIncreasing (addInstants ops) = true) :
  opsReturn sqlite (freshState timeout) ops
  /\ StronglySorted Z.lt (times (table (runOps sqlite (freshState timeout) ops)))
  /\ NoDup (times (table (runOps sqlite (freshState timeout) ops))).
Proof.
  destruct (runOps_ordered ops (freshState timeout)) as [Hall [Hs _]];
    [exact HT|split; [constructor|reflexivity]|exact Hinc|].
  split; [assumption|]. split; [assumption|now apply sorted_lt_NoDup].
Qed.

Lemma store_operations_compose_witness :
  StronglySorted Z.lt (times (table (runOps sqlite (freshState 30) sampleOps))).
Proof.
  exact (proj1 (proj2 (store_operations_compose 30 sampleOps eq_refl eq_refl))).
Defined.

(** ** A gap back-fill that is only half done *)

(** X6. The gap case is not atomic.  When the back-fill row goes in and
    the insert of the new sample then raises, because a row with the time
    [now] is already stored, the call raises with the back-fill row stored
    and the cache unchanged.  From then on every call that detects a gap
    against that cache raises on the back-fill time, which is taken, and
    changes nothing. *)
Theorem gap_backfill_half_done (st : State) (l : Row) (e1 : Z) (c1 : bool)
    (ev : string) (now : Z)
    (Hlast : lastSample st = Some l)
    (Hev : ev <> "Start")
    (Hgap : 1000 * timeoutIntervalInSeconds st < now - time l)
    (Hmiss : ~ In (time (missedRow st l)) (times (table st)))
    (Htaken : In now (times (table st))) :
  let st1 := mkState (table st ++ [missedRow st l]) (Some l)
                     (timeoutIntervalInSeconds st) (console st) in
  addOrUpdateEntry sqlite e1 c1 true ev now st = Thrown st1
  /\ forall e2 c2 ev2 now2,
       ev2 <> "Start" -> 1000 * timeoutIntervalInSeconds st < now2 - time l ->
       addOrUpdateEntry sqlite e2 c2 true ev2 now2 st1 = Thrown st1.
Proof.
  intro st1.
  assert (Hway : forall s e c ev' t,
    lastSample s = Some l -> ev' <> "Start" ->
    1000 * timeoutIntervalInSeconds s < t - time l ->
    wayOf s e c true ev' t = GapWay l).
  { intros s e c ev' t Hl Hne Hlt. unfold wayOf, gapDetected, timedOut. rewrite Hl.
    apply String.eqb_neq in Hne. apply Z.ltb_lt in Hlt. now rewrite Hne, Hlt. }
  split.
  - destruct (sqlite_gap_way st e1 c1 true ev now l (Hway st e1 c1 ev now Hlast Hev Hgap))
      as [_ [_ [_ Hfresh]]].
    rewrite (Hfresh Hmiss), createNewEntry_sqlite_dup, Hlast; [reflexivity|].
    cbn [table]. rewrite times_app. apply in_app_iff. now left.
  - intros e2 c2 ev2 now2 Hev2 Hgap2.
    destruct (sqlite_gap_way st1 e2 c2 true ev2 now2 l
                (Hway st1 e2 c2 ev2 now2 eq_refl Hev2 Hgap2)) as [_ [_ [Hdup _]]].
    apply Hdup. subst st1. cbn [table timeoutIntervalInSeconds missedRow time].
    rewrite times_app. apply in_app_iff. right. now left.
Qed.

Lemma gap_backfill_half_done_witness :
  addOrUpdateEntry sqlite 40 false true "" 100000
    (mkState [mkRow 100000 60 false true ""; mkRow 5000 50 false true ""]
             (Some (mkRow 5000 50 false true "")) 30 [])
  = Thrown
      (mkState [mkRow 100000 60 false true ""; mkRow 5000 50 false true "";
                mkRow 35000 50 false false ""]
               (Some (mkRow 5000 50 false true "")) 30 []).
Proof.
  refine (proj1 (gap_backfill_half_done
    (mkState [mkRow 100000 60 false true ""; mkRow 5000 50 false true ""]
             (Some (mkRow 5000 50 false true "")) 30 [])
    (mkRow 5000 50 false true "") 40 false "" 100000 eq_refl _ _ _ _)).
  - discriminate.
  - cbn. lia.
  - cbv. intuition discriminate.
  - cbv. tauto.
Defined.

(** ** The stored span and the retention *)

Lemma earliest_row (tb : Table) :
  tb <> [] ->
  exists h, limit 1 (orderByTimeAsc tb) = [h] /\ In h tb
            /\ forall x, In x tb -> time h <= time x.
Proof.
  intro Hne.
  pose proof (orderByTimeAsc_sorted tb) as Hs.
  pose proof (orderByTimeAsc_In tb) as Hin.
  destruct (orderByTimeAsc tb) as [|h s].
  - destruct tb as [|x tb]; [congruence|]. exfalso.
    apply (proj2 (Hin x)). now left.
  - exists h. split; [reflexivity|]. split; [apply Hin; now left|].
    intros x Hx. apply Hin in Hx. destruct Hx as [<-|Hx]; [lia|].
    inversion Hs as [|? ? _ Hall]; subst. rewrite Forall_forall in Hall.
    exact (Hall x Hx).
Qed.

Lemma days_le (x d : Z) :
  x <= d * 86400000 -> (inject_Z x / 1000 / 3600 / 24 <= inject_Z d)%Q.
Proof.
  intro H. unfold Qle, Qdiv, Qmult, Qinv, inject_Z. simpl. lia.
Qed.


Lemma getStoredDayCount_earliest (P : Platform) (tb : Table) (now : Z) (r : Row) :
  RoundTrip P -> In r tb -> (forall x, In x tb -> time r <= time x) ->
  getStoredDayCount P tb now = (inject_Z (now - time r) / 1000 / 3600 / 24)%Q.
Proof.
  intros Hrt Hin Hmin. unfold getStoredDayCount.
  destruct (earliest_row tb) as [h [Hh [Hhin Hhmin]]];
    [intro E; now rewrite E in Hin|].
  rewrite Hh, Hrt.
  assert (time h = time r) as ->
    by (pose proof (Hmin h Hhin); pose proof (Hhmin r Hin); lia).
  reflexivity.
Qed.



(** X8. Retention bounds the stored span.  After [cleanup(maximumDays)]
    with a number of days that is not negative, [getStoredDayCount] read at
    the same instant is at most [maximumDays]; a row exactly
    [maximumDays] days old is kept. *)
Theorem cleanup_bounds_stored_days (P : Platform) (st : State)
    (maximumDays now : Z)
    (Hrt : RoundTrip P)
    (Hdays : 0 <= maximumDays) :
  (getStoredDayCount P (table (cleanup maximumDays now st)) now
   <= inject_Z maximumDays)%Q
  /\ forall r, In r (table st) -> time r = daysBefore now maximumDays ->
               In r (table (cleanup maximumDays now st)).
Proof.
  split.
  - destruct (table (cleanup maximumDays now st)) as [|x tb'] eqn:Htb.
    + unfold getStoredDayCount. cbn. unfold Qle. cbn. lia.
    + destruct (earliest_row (x :: tb')) as [h [Hh [Hhin Hhmin]]]; [discriminate|].
      rewrite (getStoredDayCount_earliest P (x :: tb') now h Hrt Hhin Hhmin).
      apply days_le. rewrite <- Htb in Hhin. unfold cleanup in Hhin.
      cbn [table withTable] in Hhin. unfold sqlDeleteBefore in Hhin.
      apply filter_In in Hhin. destruct Hhin as [_ Hk].
      apply negb_true_iff, Z.ltb_ge in Hk. unfold daysBefore, msPerDay in Hk. lia.
  - intros r Hin Ht. unfold cleanup. cbn [table withTable]. unfold sqlDeleteBefore.
    apply filter_In. split; [assumption|]. apply negb_true_iff, Z.ltb_ge. lia.
Qed.

Lemma cleanup_bounds_stored_days_witness :
  (getStoredDayCount utc
     (table (cleanup 5 (days 10) (mkState windowTable None 30 []))) (days 10)
   <= inject_Z 5)%Q.
Proof.
  exact (proj1 (cleanup_bounds_stored_days utc (mkState windowTable None 30 [])
                  5 (days 10) utc_roundtrip ltac:(lia))).
Defined.

Lemma filter_filter_implied (f g : Row -> bool) (tb : Table) :
  (forall x, f x = true -> g x = true) -> filter f (filter g tb) = filter f tb.
Proof.
  intro H. induction tb as [|x tb IH]; simpl; [reflexivity|].
  destruct (g x) eqn:Hg; simpl.
  - destruct (f x); [f_equal|]; exact IH.
  - destruct (f x) eqn:Hf; [|exact IH]. rewrite (H x Hf) in Hg. discriminate.
Qed.

(** X9. Retention leaves recent queries alone.  A [cleanup(maximumDays)]
    does not change what [getLatestEvents(dayCount)] and
    [getAveragePower(dayCount)] return at the same instant when
    [dayCount <= maximumDays]: every row those queries read is younger
    than the rows that were deleted. *)
Theorem cleanup_keeps_recent_queries (P : Platform) (st : State)
    (maximumDays dayCount now : Z)
    (Hdays : dayCount <= maximumDays) :
  getLatestEvents P (table (cleanup maximumDays now st)) dayCount now
  = getLatestEvents P (table st) dayCount now
  /\ getAveragePower P (table (cleanup maximumDays now st)) dayCount now
     = getAveragePower P (table st) dayCount now.
Proof.
  assert (Hcut : daysBefore now maximumDays <= daysBefore now dayCount)
    by (unfold daysBefore, msPerDay; lia).
  unfold cleanup, sqlDeleteBefore. cbn [table withTable]. split.
  - unfold getLatestEvents, selectEvents. rewrite filter_filter_implied; [reflexivity|].
    intros x Hx. rewrite !andb_true_iff in Hx. destruct Hx as [[Hx _] _].
    apply Z.ltb_lt in Hx. apply negb_true_iff, Z.ltb_ge. lia.
  - unfold getAveragePower, selectDischarging.
    rewrite filter_filter_implied; [reflexivity|].
    intros x Hx. rewrite andb_true_iff in Hx. destruct Hx as [Hx _].
    apply Z.ltb_lt in Hx. apply negb_true_iff, Z.ltb_ge. lia.
Qed.

Lemma cleanup_keeps_recent_queries_witness :
  getAveragePower utc
    (table (cleanup 3 (days 10) (mkState windowTable None 30 []))) 3 (days 10)
  = getAveragePower utc windowTable 3 (days 10).
Proof.
  exact (proj2 (cleanup_keeps_recent_queries utc (mkState windowTable None 30 [])
                  3 3 (days 10) ltac:(lia))).
Defined.

(** ** The shape of a window *)

Lemma limit1_In (l : Table) (item : Row) : limit 1 l = [item] -> In item l.
Proof.
  destruct l as [|x l]; [discriminate|]. cbn. intro H. injection H as <-. now left.
Qed.

Lemma selectBetween_sorted (tb : Table) (startTime endTime : Z) :
  NoDup (times tb) ->
  StronglySorted Z.lt (times (selectBetween tb startTime endTime)).
Proof.
  intro Hkey. unfold selectBetween. apply sorted_strict.
  - apply orderByTimeAsc_sorted.
  - apply (NoDup_times_perm _ _ (Permutation_sym (orderByTimeAsc_perm _))).
    now apply NoDup_times_filter.
Qed.

Lemma sorted_head_least (a : Row) (l : Table) (x : Row) :
  StronglySorted Z.lt (times (a :: l)) -> In x (a :: l) -> time a <= time x.
Proof.
  intros Hs [<-|Hx]; [lia|]. inversion Hs as [|? ? _ Hall]; subst.
  rewrite Forall_forall in Hall.
  assert (time a < time x) by (apply Hall; unfold times; now apply in_map). lia.
Qed.

Lemma sorted_last_greatest (l : Table) (d x : Row) :
  StronglySorted Z.lt (times l) -> In x l -> time x <= time (last l d).
Proof.
  revert x. induction l as [|a l IH]; intros x Hs Hx; [contradiction|].
  inversion Hs as [|? ? Hs' Hall]; subst.
  destruct l as [|b l]; [destruct Hx as [<-|[]]; simpl; lia|].
  change (last (a :: b :: l) d) with (last (b :: l) d).
  destruct Hx as [->|Hx]; [|now apply IH].
  rewrite Forall_forall in Hall.
  assert (time x < time b) by (apply Hall; now left).
  assert (time b <= time (last (b :: l) d)) by (apply IH; [assumption|now left]).
  lia.
Qed.

Lemma last_In (l : Table) (a d : Row) : In (last (a :: l) d) (a :: l).
Proof.
  revert a. induction l as [|b l IH]; intro a; [now left|].
  change (last (a :: b :: l) d) with (last (b :: l) d). right. apply IH.
Qed.

Lemma last_map_rowEntry (l : Table) (d : Row) :
  last (map rowEntry l) (rowEntry d) = rowEntry (last l d).
Proof.
  induction l as [|x l IH]; [reflexivity|].
  destruct l as [|y l]; [reflexivity|]. exact IH.
Qed.

(** What [getLatestEntries] returns, on a platform whose readers recover
    the written instant: the rows of the window, and around two or more of
    them at most one border entry on each side, made from a row of the
    table that lies beyond the border. *)
Lemma getLatestEntries_shape (P : Platform) (tb : Table) (dayCount dayOffset now : Z) :
  RoundTrip P -> NoDup (times tb) ->
  let startTime := daysBefore now (dayCount + dayOffset) in
  let endTime := daysBefore now dayOffset in
  let rows := selectBetween tb startTime endTime in
  exists pre post,
    getLatestEntries P tb dayCount dayOffset now = pre ++ map rowEntry rows ++ post
    /\ (pre = []
        \/ exists firstRow rest other,
             rows = firstRow :: rest /\ In other tb /\ time other <= startTime
             /\ pre = [borderEntry startTime firstRow other])
    /\ (post = []
        \/ exists firstRow other,
             In other tb /\ endTime <= time other
             /\ post = [borderEntry endTime (last rows firstRow) other]).
Proof.
  intros Hrt Hkey. cbv zeta.
  set (startTime := daysBefore now (dayCount + dayOffset)).
  set (endTime := daysBefore now dayOffset).
  pose proof (selectBetween_sorted tb startTime endTime Hkey) as Hs.
  assert (Hwin : forall x, In x (selectBetween tb startTime endTime)
                           <-> In x tb /\ startTime < time x < endTime)
    by (intro x; apply selectBetween_In).
  assert (Hfew : (List.length (selectBetween tb startTime endTime) < 2)%nat ->
                 getLatestEntries P tb dayCount dayOffset now
                 = map rowEntry (selectBetween tb startTime endTime)).
  { intro H. rewrite <- (map_convert_roundtrip P _ Hrt).
    now apply getLatestEntries_few. }
  pose proof (getLatestEntries_many P tb dayCount dayOffset now) as Hmany.
  fold startTime endTime in Hmany.
  destruct (selectBetween tb startTime endTime) as [|a [|b rest']].
  - exists [], []. split; [|split; now left]. apply Hfew. simpl. lia.
  - exists [], []. split; [|split; now left]. apply Hfew. simpl. lia.
  - rewrite (Hmany a (b :: rest') eq_refl) by (simpl; lia).
    + rewrite (map_convert_roundtrip P _ Hrt), (convert_roundtrip P _ Hrt).
      set (rws := a :: b :: rest') in *.
      pose proof (last_map_rowEntry rws a) as Hlast.
      rewrite Hlast.
      assert (Hpost : exists post,
        addAfterEnd P tb endTime (map rowEntry rws) (rowEntry (last rws a))
        = map rowEntry rws ++ post
        /\ (post = []
            \/ exists firstRow other,
                 In other tb /\ endTime <= time other
                 /\ post = [borderEntry endTime (last rws firstRow) other])).
      { unfold addAfterEnd. cbn [eevent etime eenergy rowEntry].
        destruct (negb (event (last rws a) =? "Stop")%string);
          [|exists []; split; [now rewrite app_nil_r|now left]].
        destruct (selectNextAfter tb (time (last rws a))) as [|item [|i2 more]] eqn:Hsel;
          [exists []; split; [now rewrite app_nil_r|now left]|
          |exists []; split; [now rewrite app_nil_r|now left]].
        unfold selectNextAfter in Hsel. apply limit1_In in Hsel.
        apply orderByTimeAsc_In, filter_In in Hsel. destruct Hsel as [Hitem Hlt].
        apply Z.ltb_lt in Hlt.
        eexists. split; [reflexivity|]. right. exists a, item.
        split; [assumption|]. split.
        - destruct (Z.le_gt_cases endTime (time item)) as [Hle|Hgt]; [exact Hle|exfalso].
          assert (Hla : In (last rws a) rws) by (subst rws; apply last_In).
          apply Hwin in Hla. assert (Hin : In item rws) by (apply Hwin; split; [assumption|lia]).
          pose proof (sorted_last_greatest rws a item Hs Hin). lia.
        - rewrite (convert_roundtrip P item Hrt). reflexivity. }
      destruct Hpost as [post [Hpe Hpost]]. rewrite Hpe.
      unfold addBeforeStart, entryIsNotString. cbn [etime eenergy rowEntry].
      destruct (selectLastBefore tb (time a)) as [|item [|i2 more]] eqn:Hsel.
      * exists [], post. split; [reflexivity|]. split; [now left|exact Hpost].
      * unfold selectLastBefore, orderByTimeDesc in Hsel. apply limit1_In in Hsel.
        apply in_rev, orderByTimeAsc_In, filter_In in Hsel.
        destruct Hsel as [Hitem Hlt]. apply Z.ltb_lt in Hlt.
        exists [borderEntry startTime a item], post.
        split; [rewrite (convert_roundtrip P item Hrt); reflexivity|].
        split; [|exact Hpost]. right. exists a, (b :: rest'), item.
        split; [reflexivity|]. split; [assumption|]. split; [|reflexivity].
        destruct (Z.le_gt_cases (time item) startTime) as [Hle|Hgt]; [exact Hle|exfalso].
        assert (Ha : In a rws) by (subst rws; now left). apply Hwin in Ha.
        assert (Hin : In item rws) by (apply Hwin; split; [assumption|lia]).
        pose proof (sorted_head_least a (b :: rest') item Hs Hin). lia.
      * exists [], post. split; [reflexivity|]. split; [now left|exact Hpost].
Qed.

Lemma sorted_lt_app (l1 l2 : list Z) :
  StronglySorted Z.lt l1 -> StronglySorted Z.lt l2 ->
  (forall x y, In x l1 -> In y l2 -> x < y) ->
  StronglySorted Z.lt (l1 ++ l2).
Proof.
  induction 1 as [|a l1 Hs IH Hall]; intros H2 Hlt; [exact H2|].
  simpl. constructor.
  - apply IH; [assumption|]. intros x y Hx Hy. apply Hlt; [now right|assumption].
  - apply Forall_app. split; [assumption|].
    rewrite Forall_forall. intros y Hy. apply Hlt; [now left|assumption].
Qed.

Lemma map_etime_rowEntry (rows : Table) : map etime (map rowEntry rows) = times rows.
Proof. unfold times. rewrite map_map. reflexivity. Qed.

(** X10. The entries of a window are in order and inside it.  On a
    platform whose readers recover the written instant and with the
    primary key, the times of the entries that [getLatestEntries] returns
    are strictly ascending and lie between the start and the end of the
    window, both included; there are at most two entries more than rows
    strictly inside the window. *)
Theorem window_entries_ascending (P : Platform) (tb : Table)
    (dayCount dayOffset now : Z)
    (Hrt : RoundTrip P)
    (Hkey : NoDup (times tb)) :
  let startTime := daysBefore now (dayCount + dayOffset) in
  let endTime := daysBefore now dayOffset in
  let result := getLatestEntries P tb dayCount dayOffset now in
  StronglySorted Z.lt (map etime result)
  /\ (forall en, In en result -> startTime <= etime en <= endTime)
  /\ (List.length result
      <= List.length (selectBetween tb startTime endTime) + 2)%nat.
Proof.
  intros startTime endTime result. subst result.
  destruct (getLatestEntries_shape P tb dayCount dayOffset now Hrt Hkey)
    as [pre [post [Heq [Hpre Hpost]]]].
  fold startTime endTime in Heq, Hpre, Hpost. rewrite Heq.
  pose proof (selectBetween_sorted tb startTime endTime Hkey) as Hs.
  assert (Hwin : forall x, In x (selectBetween tb startTime endTime) ->
                           startTime < time x < endTime)
    by (intros x Hx; apply selectBetween_In in Hx; tauto).
  assert (Hpre' : forall en, In en pre -> etime en = startTime).
  { destruct Hpre as [->|[f [r [o [_ [_ [_ ->]]]]]]];
      [intros en []|intros en [<-|[]]; reflexivity]. }
  assert (Hpost' : forall en, In en post -> etime en = endTime).
  { destruct Hpost as [->|[f [o [_ [_ ->]]]]];
      [intros en []|intros en [<-|[]]; reflexivity]. }
  assert (Hlpre : (List.length pre <= 1)%nat)
    by (destruct Hpre as [->|[f [r [o [_ [_ [_ ->]]]]]]]; simpl; lia).
  assert (Hlpost : (List.length post <= 1)%nat)
    by (destruct Hpost as [->|[f [o [_ [_ ->]]]]]; simpl; lia).
  assert (Hrows : forall t, In t (times (selectBetween tb startTime endTime)) ->
                            startTime < t < endTime).
  { intros t Ht. unfold times in Ht. apply in_map_iff in Ht.
    destruct Ht as [x [<- Hx]]. now apply Hwin. }
  split; [|split].
  - rewrite !map_app, map_etime_rowEntry. apply sorted_lt_app.
    + destruct Hpre as [->|[f [r [o [_ [_ [_ ->]]]]]]]; repeat constructor.
    + apply sorted_lt_app; [assumption| |].
      * destruct Hpost as [->|[f [o [_ [_ ->]]]]]; repeat constructor.
      * intros x y Hx Hy. apply in_map_iff in Hy. destruct Hy as [en [<- Hen]].
        rewrite (Hpost' en Hen). apply Hrows in Hx. lia.
    + intros x y Hx Hy. apply in_map_iff in Hx. destruct Hx as [en [<- Hen]].
      rewrite (Hpre' en Hen). apply in_app_iff in Hy. destruct Hy as [Hy|Hy].
      * apply Hrows in Hy. lia.
      * apply in_map_iff in Hy. destruct Hy as [en' [<- Hen']].
        rewrite (Hpost' en' Hen').
        destruct Hpre as [->|[f [r [o [Hr [_ [_ ->]]]]]]]; [contradiction|].
        assert (In f (selectBetween tb startTime endTime)) as Hf
          by (rewrite Hr; now left).
        apply Hwin in Hf. lia.
  - intros en Hen. apply in_app_iff in Hen. destruct Hen as [Hen|Hen].
    + rewrite (Hpre' en Hen).
      destruct Hpre as [->|[f [r [o [Hr [_ [_ ->]]]]]]]; [contradiction|].
      assert (In f (selectBetween tb startTime endTime)) as Hf
        by (rewrite Hr; now left).
      apply Hwin in Hf. lia.
    + apply in_app_iff in Hen. destruct Hen as [Hen|Hen].
      * apply in_map_iff in Hen. destruct Hen as [x [<- Hx]].
        apply Hwin in Hx. cbn [etime rowEntry]. lia.
      * rewrite (Hpost' en Hen).
        destruct Hpost as [->|[f [o [Ho [Hle ->]]]]]; [contradiction|].
        destruct Hpre as [->|[f' [r [o' [Hr _]]]]].
        -- destruct (selectBetween tb startTime endTime) as [|a l] eqn:Hsel.
           ++ exfalso. revert Heq. rewrite getLatestEntries_few;
                fold startTime endTime; rewrite Hsel; [discriminate|simpl; lia].
           ++ assert (In a (a :: l)) as Ha by now left. apply Hwin in Ha. lia.
        -- assert (In f' (selectBetween tb startTime endTime)) as Hf
             by (rewrite Hr; now left).
           apply Hwin in Hf. lia.
  - rewrite !length_app, length_map. lia.
Qed.

Lemma window_entries_ascending_witness :
  StronglySorted Z.lt (map etime (getLatestEntries cet windowTable 5 0 (days 10))).
Proof.
  refine (proj1 (window_entries_ascending cet windowTable 5 0 (days 10)
                   cet_roundtrip _)).
  unfold windowTable. key_tac.
Defined.

(** ** More on the average power *)

Lemma roundHalfEven_nonneg (num den : Z) :
  0 <= num -> 0 < den -> 0 <= roundHalfEven num den.
Proof.
  intros Hn Hd. unfold roundHalfEven.
  assert (0 <= num / den) by (apply Z.div_pos; lia).
  destruct (2 * (num mod den) ?= den); [destruct (Z.even (num / den))| |]; lia.
Qed.

Lemma roundPos_nonneg (n d : positive) : (0 <= roundPos n d)%Q.
Proof.
  unfold roundPos.
  destruct (Z.leb_spec 0 (Z.max (floorLog2 n d - 52) (-1074))) as [He|He].
  - change 0%Q with (inject_Z 0). rewrite <- Zle_Qle.
    apply Z.mul_nonneg_nonneg; [|now apply Z.pow_nonneg].
    apply roundHalfEven_nonneg; [lia|].
    apply Z.mul_pos_pos; [lia|now apply Z.pow_pos_nonneg].
  - unfold Qle. cbn [Qnum Qden]. rewrite Z.mul_1_r, Z.mul_0_l.
    apply roundHalfEven_nonneg; [|lia].
    apply Z.mul_nonneg_nonneg; [lia|]. apply Z.pow_nonneg. lia.
Qed.

(** Rounding to a number keeps what is not negative so. *)
Lemma round64_nonneg (q : Q) : (0 <= q)%Q -> (0 <= round64 q)%Q.
Proof.
  destruct q as [num den]. unfold round64. cbn [Qnum Qden].
  destruct num as [|n|n]; intro H.
  - apply Qle_refl.
  - apply roundPos_nonneg.
  - unfold Qle in H. cbn in H. lia.
Qed.

Lemma power_quotient_nonneg (s d : Z) :
  0 < s -> 0 < d ->
  0 <= mathRound (fdiv (fmul (inject_Z s) 3600) (fdiv (inject_Z d) 1000)).
Proof.
  intros Hs Hd. unfold mathRound. change 0 with (Qfloor 0). apply Qfloor_resp_le.
  assert (0 <= fdiv (fmul (inject_Z s) 3600) (fdiv (inject_Z d) 1000))%Q.
  { unfold fdiv, fmul. apply round64_nonneg. unfold Qdiv.
    apply Qmult_le_0_compat.
    - apply round64_nonneg. apply Qmult_le_0_compat; [|discriminate].
      change 0%Q with (inject_Z 0). rewrite <- Zle_Qle. lia.
    - apply Qinv_le_0_compat. apply round64_nonneg.
      apply Qmult_le_0_compat; [|discriminate].
      change 0%Q with (inject_Z 0). rewrite <- Zle_Qle. lia. }
  lra.
Qed.

(** X12. The average power is a number that is not negative.  On a
    platform whose readers recover the written instant and with the
    primary key, [getAveragePower] never returns [Infinity] (the division
    is by a positive duration) and never a negative value. *)
Theorem average_power_not_negative (P : Platform) (tb : Table) (dayCount now : Z)
    (Hrt : RoundTrip P)
    (Hkey : NoDup (times tb)) :
  exists p, getAveragePower P tb dayCount now = Finite p /\ 0 <= p.
Proof.
  rewrite (getAveragePower_spec P tb dayCount now Hrt Hkey).
  eexists. split; [reflexivity|]. unfold specAveragePower.
  pose proof (selectDischarging_sorted tb (daysBefore now dayCount) Hkey) as Hs.
  set (rows := selectDischarging tb (daysBefore now dayCount)) in *.
  destruct (Z.ltb_spec 0 (sumZ (map (fun pc => energy (fst pc) - energy (snd pc))
              (filter countedPair (consecutivePairs rows))))) as [Hpos|Hle]; [|lia].
  apply power_quotient_nonneg; [assumption|].
  exact (counted_sums_positive _ (pairs_ascending _ Hs) Hpos).
Qed.

Lemma average_power_not_negative_witness :
  exists p, getAveragePower cet dischargeTable 1 9900000 = Finite p /\ 0 <= p.
Proof.
  refine (average_power_not_negative cet dischargeTable 1 9900000 cet_roundtrip _).
  unfold dischargeTable. key_tac.
Defined.





(** ** The event page *)

Lemma pageInit_filter (events : list EventEntry) :
  forall itemModel,
  pageInit events itemModel
  = itemModel ++ map itemOf (filter (fun e => negb (vevent e =? "")%string) events).
Proof.
  unfold pageInit. induction events as [|e events IH]; intro itemModel;
    [simpl; now rewrite app_nil_r|].
  cbn [fold_left filter]. rewrite IH. unfold addItem.
  destruct (negb (vevent e =? "")%string); [|reflexivity].
  cbn [map]. now rewrite <- app_assoc.
Qed.

(** X14. The event page shows the whole timeline.  [addItem] skips entries
    whose event is empty and appends the others in the order of the list;
    every entry that [getLatestEvents] returns has an event that is not
    empty, so a page filled from that list shows each of its entries, in
    the same order. *)
Theorem event_page_lists_all_events (P : Platform) (tb : Table)
    (dayCount now : Z) (itemModel : list Item) :
  (forall events,
     pageInit events itemModel
     = itemModel ++ map itemOf (filter (fun e => negb (vevent e =? "")%string) events))
  /\ pageInit (getLatestEvents P tb dayCount now) itemModel
     = itemModel ++ map itemOf (getLatestEvents P tb dayCount now).
Proof.
  split; [intro events; apply pageInit_filter|].
  rewrite pageInit_filter. f_equal. f_equal.
  assert (Hall : forall e, In e (getLatestEvents P tb dayCount now) ->
                           negb (vevent e =? "")%string = true).
  { intros e He. unfold getLatestEvents in He. apply collectEvents_sub in He.
    destruct He as [r [Hr ->]]. apply selectEvents_In in Hr. cbn [vevent].
    apply negb_true_iff, String.eqb_neq. tauto. }
  induction (getLatestEvents P tb dayCount now) as [|e l IH]; [reflexivity|].
  cbn [filter]. rewrite (Hall e (or_introl eq_refl)). f_equal.
  apply IH. intros x Hx. apply Hall. now right.
Qed.

(** ** After a restart *)

(** X15. The first sample after a restart.  With the five cache variables
    undefined, as after the application has started, a call never takes
    the merge case: whatever the engine does, it does not return the
    number 0.  With SQLite and an instant that is not yet stored the
    sample is added as a new row, also when the last row already holds the
    same values, which then stand in two rows. *)
Theorem first_sample_after_restart (E : Engine) (st : State) (e : Z)
    (c a : bool) (ev : string) (now : Z)
    (Hnone : lastSample st = None) :
  (forall st', addOrUpdateEntry E e c a ev now st <> Return RetZero st')
  /\ (~ In now (times (table st)) ->
      addOrUpdateEntry sqlite e c a ev now st
      = Return (RetTime now)
          (mkState (table st ++ [mkRow now e c a ev]) (Some (mkRow now e c a ev))
                   (timeoutIntervalInSeconds st) (console st)))
  /\ (forall before t0,
        table st = before ++ [mkRow t0 e c a ev] ->
        ~ In now (times (table st)) ->
        table (finalState (addOrUpdateEntry sqlite e c a ev now st))
        = before ++ [mkRow t0 e c a ev; mkRow now e c a ev]).
Proof.
  assert (Hplain : forall E', addOrUpdateEntry E' e c a ev now st
                              = createNewEntry E' now e c a ev st)
    by (intro E'; unfold addOrUpdateEntry; now rewrite Hnone).
  split; [|split].
  - intros st' H. rewrite Hplain in H.
    destruct (createNewEntry_cases E now e c a ev st) as [[_ Hr]|[tb [n [_ Hr]]]];
      rewrite Hr in H; discriminate.
  - intro Hfresh. rewrite Hplain. now apply createNewEntry_sqlite_fresh.
  - intros before t0 Htb Hfresh. rewrite Hplain.
    rewrite (createNewEntry_sqlite_fresh now e c a ev st Hfresh). cbn [finalState table].
    rewrite Htb, <- app_assoc. reflexivity.
Qed.

Lemma first_sample_after_restart_witness :
  table (finalState (addOrUpdateEntry sqlite 50 false true "Charging" 2000
           (mkState [mkRow 1000 50 false true "Charging"] None 30 [])))
  = [mkRow 1000 50 false true "Charging"; mkRow 2000 50 false true "Charging"].
Proof.
  refine (proj2 (proj2 (first_sample_after_restart sqlite
    (mkState [mkRow 1000 50 false true "Charging"] None 30 [])
    50 false true "Charging" 2000 eq_refl)) [] 1000 eq_refl _).
  cbv. intuition discriminate.
Defined.

End EnergyLog.
